(** * LogViewer: a shallow embedding of the dashboard's page logic

    The development follows the source files of the repository:
    - the log viewer page ([fetchLogs], [viewWithLLM], the URL parameters,
      the service that the page shows),
    - the log table (sorting, filtering, pagination, the search inputs of
      the columns and the "Clear Filters" button),
    - the settings page (time zone labels, the groups and the search of the
      time zone picker, the service list and its rows, the reset).

    React state cells ([useState], [useLocalStorage]) are fields of a state
    record and every handler is a function from state to state.  What a
    handler does to the outside world (toasts, console output, network
    requests) is recorded in lists kept in the same record, newest last.
    An [async] handler is run to completion: the result of each awaited
    operation is an argument of the handler. *)

From Stdlib Require Import ZArith Lia List Bool Ascii String DecimalString.
From Stdlib Require Import Sorted OrderedTypeEx.
From stdpp Require Import base option list strings gmap.
Import ListNotations.

Local Open Scope string_scope.
Local Open Scope list_scope.
Local Open Scope Z_scope.

(** ** JavaScript values and string operations used by the pages *)

Module Js.

(** A string is a sequence of code units; the model keeps the ASCII range,
    which is where the white space and the letter cases used below live. *)

(** [!s] on a string: only the empty string is falsy. *)
Definition truthy (s : string) : bool :=
  match s with
  | EmptyString => false
  | String _ _ => true
  end.

(** [a || b] on strings. *)
Definition or_else (a b : string) : string :=
  if truthy a then a else b.

(** White space and line terminators stripped by [String.prototype.trim]:
    TAB, LF, VT, FF, CR and SPACE. *)
Definition isWhiteSpace (c : ascii) : bool :=
  let n := nat_of_ascii c in
  ((9 <=? n)%nat && (n <=? 13)%nat) || (n =? 32)%nat.

Fixpoint trimStart (s : string) : string :=
  match s with
  | EmptyString => EmptyString
  | String c rest => if isWhiteSpace c then trimStart rest else s
  end.

Fixpoint trimEnd (s : string) : string :=
  match s with
  | EmptyString => EmptyString
  | String c rest =>
      match trimEnd rest with
      | EmptyString => if isWhiteSpace c then EmptyString else String c EmptyString
      | t => String c t
      end
  end.

Definition trim (s : string) : string := trimEnd (trimStart s).

(** [String.prototype.toLowerCase] on the letters A to Z. *)
Definition toLowerChar (c : ascii) : ascii :=
  let n := nat_of_ascii c in
  if ((65 <=? n)%nat && (n <=? 90)%nat) then ascii_of_nat (n + 32) else c.

Fixpoint toLowerCase (s : string) : string :=
  match s with
  | EmptyString => EmptyString
  | String c rest => String (toLowerChar c) (toLowerCase rest)
  end.

(** [s.includes(search)] *)
Fixpoint includes (search s : string) : bool :=
  String.prefix search s
  || match s with
     | EmptyString => false
     | String _ rest => includes search rest
     end.

(** [s.replace(/_/g, " ")] *)
Fixpoint replaceUnderscores (s : string) : string :=
  match s with
  | EmptyString => EmptyString
  | String c rest =>
      String (if Ascii.eqb c "_" then " "%char else c) (replaceUnderscores rest)
  end.

(** What a [throw] carries: an [Error] object with its message, or any
    other value. *)
Inductive Thrown : Type :=
  | ErrorObject (message : string)
  | OtherValue.

(** Parsed JSON, as [Response.json()] resolves it.  An object keeps its
    properties in a list with one entry per key. *)
#[local] Unset Elimination Schemes.
Inductive Json : Type :=
  | JNull
  | JBool (b : bool)
  | JNumber (n : Z)
  | JString (s : string)
  | JArray (items : list Json)
  | JObject (props : list (string * Json)).
#[local] Set Elimination Schemes.

Fixpoint lookupProp (k : string) (props : list (string * Json)) : option Json :=
  match props with
  | [] => None
  | (k', v) :: rest => if String.eqb k k' then Some v else lookupProp k rest
  end.

(** [v.name] for a value that is neither [null] nor [undefined], where
    [name] is none of the built-in properties of arrays and strings:
    only an object can hold it.  [None] is [undefined]. *)
Definition getField (name : string) (v : Json) : option Json :=
  match v with
  | JObject props => lookupProp name props
  | _ => None
  end.

(** [v[0]] for a value that is neither [null] nor [undefined]. *)
Definition getIndex0 (v : Json) : option Json :=
  match v with
  | JArray items => head items
  | JObject props => lookupProp "0" props
  | JString (String c _) => Some (JString (String c EmptyString))
  | _ => None
  end.

(** [o?.name] and [o?.[0]]: [undefined] and [null] short-circuit to
    [undefined]. *)
Definition optField (name : string) (o : option Json) : option Json :=
  match o with
  | None | Some JNull => None
  | Some v => getField name v
  end.

Definition optIndex0 (o : option Json) : option Json :=
  match o with
  | None | Some JNull => None
  | Some v => getIndex0 v
  end.

(** [URLSearchParams]: the list of name-value pairs of a query string.
    [get] returns the value of the first pair with the name ([None] is
    [null]); [set] overwrites the first such pair and removes the others,
    or appends a pair when there is none. *)
Definition SearchParams : Type := list (string * string).

Fixpoint get (name : string) (ps : SearchParams) : option string :=
  match ps with
  | [] => None
  | (k, v) :: rest => if String.eqb k name then Some v else get name rest
  end.

Fixpoint set (name value : string) (ps : SearchParams) : SearchParams :=
  match ps with
  | [] => [(name, value)]
  | (k, v) :: rest =>
      if String.eqb k name
      then (k, value) :: List.filter (fun p => negb (String.eqb (fst p) name)) rest
      else (k, v) :: set name value rest
  end.

End Js.

(** ** Data shared by the pages *)

(** A log record ([LogEntry] of the table component).  The fields the
    interface marks optional are [option]s; [None] is [undefined].  Every
    value is kept as a string, as in the records that [fetchLogs] builds. *)
Record LogEntry : Type := mkLogEntry {
  id : string;
  timestamp : string;
  level : string;
  message : string;
  service : option string;
  user : option string;
  component : option string;
  action : option string;
  statusCode : option string;
  requestId : option string
}.

Inductive ToastVariant : Type := DefaultVariant | Destructive.

(** The argument of [toast({ title, description, variant })]. *)
Record Toast : Type := mkToast {
  title : string;
  description : string;
  variant : ToastVariant
}.

(** ** Dates: the platform's [Date] and date-fns [format] *)

Module JsDate.

(** A time value is a number of milliseconds since the epoch, in UTC.  The
    calendar is the proleptic Gregorian one; a day number counts the days
    since 1970-01-01. *)

Definition msPerDay : Z := 86400000.

Record Civil : Type := mkCivil { year : Z; month : Z; day : Z }.

Definition isLeapYear (y : Z) : bool :=
  (y mod 4 =? 0) && (negb (y mod 100 =? 0) || (y mod 400 =? 0)).

Definition daysInMonth (y m : Z) : Z :=
  if m =? 2 then (if isLeapYear y then 29 else 28)
  else if (m =? 4) || (m =? 6) || (m =? 9) || (m =? 11) then 30
  else 31.

(** The calendar repeats every 400 years, an era of 146097 days.  Inside an
    era the year starts on March 1st, so that the leap day comes last. *)
Definition daysPerEra : Z := 146097.
Definition epochShift : Z := 719468.

(** Day of the era to (year of the era, month, day). *)
Definition civilOfEraDay (doe : Z) : Civil :=
  let yoe := (doe - doe / 1460 + doe / 36524 - doe / 146096) / 365 in
  let doy := doe - (365 * yoe + yoe / 4 - yoe / 100) in
  let mp := (5 * doy + 2) / 153 in
  let d := doy - (153 * mp + 2) / 5 + 1 in
  let m := if mp <? 10 then mp + 3 else mp - 9 in
  mkCivil yoe m d.

Definition eraDayOfCivil (yoe m d : Z) : Z :=
  let doy := (153 * (if 2 <? m then m - 3 else m + 9) + 2) / 5 + d - 1 in
  yoe * 365 + yoe / 4 - yoe / 100 + doy.

(** Day number to calendar date: what [getUTCFullYear], [getUTCMonth] + 1
    and [getUTCDate] return for a time value on that day. *)
Definition civilFromDays (z : Z) : Civil :=
  let z := z + epochShift in
  let era := z / daysPerEra in
  let c := civilOfEraDay (z - era * daysPerEra) in
  mkCivil (year c + era * 400 + (if month c <=? 2 then 1 else 0))
    (month c) (day c).

(** Calendar date to day number. *)
Definition daysFromCivil (y m d : Z) : Z :=
  let y := y - (if m <=? 2 then 1 else 0) in
  let era := y / 400 in
  era * daysPerEra + eraDayOfCivil (y - era * 400) m d - epochShift.

(** date-fns [addLeadingZeros(number, targetLength)]: the sign, then the
    decimal digits of the absolute value padded with zeros on the left. *)
Definition decimal (n : Z) : string :=
  NilZero.string_of_uint (N.to_uint (Z.to_N n)).

Fixpoint zeros (n : nat) : string :=
  match n with
  | O => EmptyString
  | S n' => String "0" (zeros n')
  end.

Definition addLeadingZeros (n : Z) (targetLength : nat) : string :=
  let digits := decimal (Z.abs n) in
  (if n <? 0 then "-" else "")
    +:+ zeros (targetLength - String.length digits) +:+ digits.

(** The tokens [yyyy], [MM] and [dd] of date-fns [format]; [yyyy] prints
    the year of the era. *)
Definition yyyy (c : Civil) : string :=
  addLeadingZeros (if 0 <? year c then year c else 1 - year c) 4.
Definition MM (c : Civil) : string := addLeadingZeros (month c) 2.
Definition dd (c : Civil) : string := addLeadingZeros (day c) 2.

Definition format_yyyy_MM_dd (c : Civil) : string :=
  yyyy c +:+ "-" +:+ MM c +:+ "-" +:+ dd c.

Definition digitValue (c : ascii) : option Z :=
  let n := Z.of_nat (nat_of_ascii c) in
  if (48 <=? n) && (n <=? 57) then Some (n - 48) else None.

Definition number2 (a b : ascii) : option Z :=
  x ← digitValue a; y ← digitValue b; Some (10 * x + y).

Definition number4 (a b c d : ascii) : option Z :=
  x ← number2 a b; y ← number2 c d; Some (100 * x + y).

(** The date-only form [YYYY-MM-DD] of the date-time string format. *)
Definition parseDateOnly (s : string) : option Civil :=
  match s with
  | String y1 (String y2 (String y3 (String y4 (String "-"
      (String m1 (String m2 (String "-"
        (String d1 (String d2 EmptyString))))))))) =>
      y ← number4 y1 y2 y3 y4;
      m ← number2 m1 m2;
      d ← number2 d1 d2;
      Some (mkCivil y m d)
  | _ => None
  end.

Definition validCivil (c : Civil) : bool :=
  (1 <=? month c) && (month c <=? 12)
  && (1 <=? day c) && (day c <=? daysInMonth (year c) (month c)).

(** The time value of [new Date(s)] for a string in the date-only form:
    midnight UTC at the start of that day.  [None] stands for every other
    string: an invalid date, or a form that this model does not read. *)
Definition parse (s : string) : option Z :=
  c ← parseDateOnly s;
  if validCivil c
  then Some (daysFromCivil (year c) (month c) (day c) * msPerDay)
  else None.

Section LocalTime.

(** The local time zone: [tz t] is the offset of local time from UTC, in
    milliseconds, at the instant [t]. *)
Variable tz : Z -> Z.

(** [getFullYear], [getMonth] + 1 and [getDate] of the time value [t]. *)
Definition localCivil (t : Z) : Civil := civilFromDays ((t + tz t) / msPerDay).

(** date-fns [format(date, "yyyy-MM-dd")], which reads the local fields. *)
Definition formatLocal (t : Z) : string := format_yyyy_MM_dd (localCivil t).

End LocalTime.

(** Checkers that run over a range of integers. *)
Fixpoint allFrom (check : Z -> bool) (n : nat) (from : Z) : bool :=
  match n with
  | O => true
  | S n' => check from && allFrom check n' (from + 1)
  end.

Definition allBetween (check : Z -> bool) (lo hi : Z) : bool :=
  allFrom check (Z.to_nat (hi - lo + 1)) lo.

Definition eraDayOk (doe : Z) : bool :=
  let c := civilOfEraDay doe in
  let y := year c + (if month c <=? 2 then 1 else 0) in
  (eraDayOfCivil (year c) (month c) (day c) =? doe)
  && (0 <=? year c) && (year c <=? 399)
  && (1 <=? month c) && (month c <=? 12)
  && (1 <=? day c) && (day c <=? daysInMonth y (month c)).

Definition yearOk (y : Z) : bool :=
  match addLeadingZeros y 4 with
  | String a (String b (String c (String d EmptyString))) =>
      match number4 a b c d with
      | Some v => v =? y
      | None => false
      end
  | _ => false
  end.

Definition twoDigitsOk (n : Z) : bool :=
  match addLeadingZeros n 2 with
  | String a (String b EmptyString) =>
      match number2 a b with
      | Some v => v =? n
      | None => false
      end
  | _ => false
  end.

End JsDate.

(** ** The log viewer page *)

Module LogViewer.

(** The chat-completion request sent by [viewWithLLM]: the URL, the
    [Authorization] header and, of the body, the entry that is serialised
    into the user message and the token limit. *)
Record Request : Type := mkRequest {
  url : string;
  authorization : string;
  promptEntry : LogEntry;
  max_tokens : Z
}.

(** The state cells of [LogViewer], the stored API key it reads, and the
    effects of its handlers.  [date] is the time value of the [Date] object
    (milliseconds since the epoch, UTC). *)
Record State : Type := mkState {
  date : Z;
  selectedService : string;
  logs : list LogEntry;
  loading : bool;
  error : option string;
  selectedLog : option LogEntry;
  llmExplanation : string;
  llmLoading : bool;
  openAIApiKey : string;
  toasts : list Toast;
  consoleErrors : list Js.Thrown;
  requests : list Request
}.

Definition setLogs (v : list LogEntry) (s : State) : State :=
  mkState (date s) (selectedService s) v (loading s) (error s) (selectedLog s)
    (llmExplanation s) (llmLoading s) (openAIApiKey s) (toasts s)
    (consoleErrors s) (requests s).

Definition setLoading (v : bool) (s : State) : State :=
  mkState (date s) (selectedService s) (logs s) v (error s) (selectedLog s)
    (llmExplanation s) (llmLoading s) (openAIApiKey s) (toasts s)
    (consoleErrors s) (requests s).

Definition setError (v : option string) (s : State) : State :=
  mkState (date s) (selectedService s) (logs s) (loading s) v (selectedLog s)
    (llmExplanation s) (llmLoading s) (openAIApiKey s) (toasts s)
    (consoleErrors s) (requests s).

Definition setSelectedLog (v : option LogEntry) (s : State) : State :=
  mkState (date s) (selectedService s) (logs s) (loading s) (error s) v
    (llmExplanation s) (llmLoading s) (openAIApiKey s) (toasts s)
    (consoleErrors s) (requests s).

Definition setLlmExplanation (v : string) (s : State) : State :=
  mkState (date s) (selectedService s) (logs s) (loading s) (error s)
    (selectedLog s) v (llmLoading s) (openAIApiKey s) (toasts s)
    (consoleErrors s) (requests s).

Definition setLlmLoading (v : bool) (s : State) : State :=
  mkState (date s) (selectedService s) (logs s) (loading s) (error s)
    (selectedLog s) (llmExplanation s) v (openAIApiKey s) (toasts s)
    (consoleErrors s) (requests s).

Definition toast (t : Toast) (s : State) : State :=
  mkState (date s) (selectedService s) (logs s) (loading s) (error s)
    (selectedLog s) (llmExplanation s) (llmLoading s) (openAIApiKey s)
    (toasts s ++ [t]) (consoleErrors s) (requests s).

Definition console_error (e : Js.Thrown) (s : State) : State :=
  mkState (date s) (selectedService s) (logs s) (loading s) (error s)
    (selectedLog s) (llmExplanation s) (llmLoading s) (openAIApiKey s)
    (toasts s) (consoleErrors s ++ [e]) (requests s).

Definition fetch (r : Request) (s : State) : State :=
  mkState (date s) (selectedService s) (logs s) (loading s) (error s)
    (selectedLog s) (llmExplanation s) (llmLoading s) (openAIApiKey s)
    (toasts s) (consoleErrors s) (requests s ++ [r]).

(** *** [fetchLogs] *)

(** How the [try] block of [fetchLogs] ends: it runs to its last statement,
    [timestampDate.toISOString()] having produced [iso], or one of its
    statements throws. *)
Inductive TryOutcome : Type :=
  | Completed (iso : string)
  | Threw (e : Js.Thrown).

Definition mockLogs (iso : string) (selected : string) : list LogEntry :=
  [ mkLogEntry "log-1" iso "INFO"
      "Example log entry - This is a demo log message"
      (Some selected) (Some "demo_user") (Some "demo_component")
      (Some "demo_action") (Some "200") (Some "req-demo-001") ].

Definition fetchLogsFailedToast : Toast :=
  mkToast "Error" "Failed to fetch logs. Please try again." Destructive.

(** [err instanceof Error ? err.message : "Failed to fetch logs"] *)
Definition errorMessage (e : Js.Thrown) : string :=
  match e with
  | Js.ErrorObject m => m
  | Js.OtherValue => "Failed to fetch logs"
  end.

(** The statements of [fetchLogs] before the [await]. *)
Definition fetchLogsStart (s : State) : State :=
  let s := setLoading true s in
  setError None s.

(** The rest of [fetchLogs], which runs once the awaited promise is settled:
    the end of the [try] block or the [catch] block, then [finally].
    [selected] is the [selectedService] that the closure holds. *)
Definition fetchLogsSettle (selected : string) (outcome : TryOutcome)
    (s : State) : State :=
  let s :=
    match outcome with
    | Completed iso => setLogs (mockLogs iso selected) s
    | Threw err =>
        let s := console_error err s in
        let s := setError (Some (errorMessage err)) s in
        toast fetchLogsFailedToast s
    end in
  setLoading false s.

Definition fetchLogs (outcome : TryOutcome) (s : State) : State :=
  fetchLogsSettle (selectedService s) outcome (fetchLogsStart s).

(** What the page shows below the tool bar:
    [error ? <error panel> : loading ? <skeleton> : <LogTable logs={logs}>]. *)
Inductive View : Type :=
  | ErrorPanel (msg : string)
  | Skeleton
  | Table (rows : list LogEntry).

Definition render (s : State) : View :=
  match error s with
  | Some msg =>
      if Js.truthy msg then ErrorPanel msg
      else if loading s then Skeleton else Table (logs s)
  | None => if loading s then Skeleton else Table (logs s)
  end.

(** *** [viewWithLLM] *)

(** How the awaited operations of [viewWithLLM] end: [fetch] rejects
    (transport), [res.json()] rejects (the body is not JSON), or the body
    parses to [data]. *)
Inductive LlmOutcome : Type :=
  | FetchRejected (e : Js.Thrown)
  | JsonRejected (e : Js.Thrown)
  | Parsed (data : Js.Json).

Definition missingKeyToast : Toast :=
  mkToast "Missing API Key"
    "Add your OpenAI API key in Settings > LLM View" Destructive.

Definition explanationFailedToast : Toast :=
  mkToast "Error" "Failed to fetch explanation" Destructive.

Definition completionRequest (key : string) (entry : LogEntry) : Request :=
  mkRequest "https://api.openai.com/v1/chat/completions"
    ("Bearer " +:+ key) entry 150.

(** [data.choices?.[0]?.message?.content]: the first access is not
    optional, so [data === null] is a [TypeError]. *)
Definition completionContent (data : Js.Json) : Js.Thrown + option Js.Json :=
  match data with
  | Js.JNull => inl (Js.ErrorObject "Cannot read properties of null")
  | _ =>
      inr (Js.optField "content"
             (Js.optField "message"
                (Js.optIndex0 (Js.getField "choices" data))))
  end.

(** [content?.trim()]: [undefined] and [null] short-circuit, a string is
    trimmed, and any other JSON value has no callable [trim]. *)
Definition optTrim (content : option Js.Json) : Js.Thrown + option string :=
  match content with
  | None | Some Js.JNull => inr None
  | Some (Js.JString text) => inr (Some (Js.trim text))
  | Some _ => inl (Js.ErrorObject "trim is not a function")
  end.

(** [data.choices?.[0]?.message?.content?.trim() || "No explanation"] *)
Definition explanationOf (data : Js.Json) : Js.Thrown + string :=
  match completionContent data with
  | inl e => inl e
  | inr content =>
      match optTrim content with
      | inl e => inl e
      | inr None => inr "No explanation"
      | inr (Some text) => inr (Js.or_else text "No explanation")
      end
  end.

Definition explanationFailed (e : Js.Thrown) (s : State) : State :=
  toast explanationFailedToast (console_error e s).

(** The part of [viewWithLLM] that runs once the awaited promises are
    settled: the end of the [try] block or the [catch] block, then
    [finally]. *)
Definition viewWithLLMSettle (outcome : LlmOutcome) (s : State) : State :=
  let s :=
    match outcome with
    | FetchRejected e => explanationFailed e s
    | JsonRejected e => explanationFailed e s
    | Parsed data =>
        match explanationOf data with
        | inl e => explanationFailed e s
        | inr text => setLlmExplanation text s
        end
    end in
  setLlmLoading false s.

Definition viewWithLLM (entry : LogEntry) (outcome : LlmOutcome) (s : State)
  : State :=
  let s := setSelectedLog (Some entry) s in
  if negb (Js.truthy (openAIApiKey s)) then toast missingKeyToast s
  else
    let s := setLlmLoading true s in
    let s := setLlmExplanation "" s in
    let s := fetch (completionRequest (openAIApiKey s) entry) s in
    viewWithLLMSettle outcome s.

(** The right pane of the dialog: [llmLoading ? "Loading..." : llmExplanation]. *)
Definition explanationPane (s : State) : string :=
  if llmLoading s then "Loading..." else llmExplanation s.

(** *** The URL parameters

    The query string is kept as the list of its pairs: what [router.push]
    writes is what [useSearchParams] reads after a reload. *)

Section Url.

(** The time zone of the browser. *)
Variable tz : Z -> Z.

(** [format(date, "yyyy-MM-dd")] *)
Definition formattedDate (s : State) : string := JsDate.formatLocal tz (date s).

(** [searchParams.get("date") || "today"] *)
Definition dateParam (searchParams : Js.SearchParams) : string :=
  match Js.get "date" searchParams with
  | Some v => Js.or_else v "today"
  | None => "today"
  end.

(** [dateParam === "today" ? new Date() : new Date(dateParam)], where [now]
    is the time value of [new Date()]. *)
Definition initialDate (now : Z) (searchParams : Js.SearchParams) : option Z :=
  if String.eqb (dateParam searchParams) "today" then Some now
  else JsDate.parse (dateParam searchParams).

(** [searchParams.get("service") || "API Server"] *)
Definition serviceParam (searchParams : Js.SearchParams) : string :=
  match Js.get "service" searchParams with
  | Some v => Js.or_else v "API Server"
  | None => "API Server"
  end.

(** The effect that updates the URL: the parameters pushed to the router. *)
Definition updateUrl (s : State) (searchParams : Js.SearchParams)
  : Js.SearchParams :=
  Js.set "service" (selectedService s)
    (Js.set "date" (formattedDate s) searchParams).

End Url.

(** A browser five hours behind UTC all year. *)
Definition utcMinus5 (t : Z) : Z := -18000000.

(** A response body of the shape the completion service documents:
    [{ choices: [ { message: { content: text } } ] }]. *)
Definition completion (text : string) : Js.Json :=
  Js.JObject
    [ ("choices",
       Js.JArray
         [ Js.JObject
             [ ("message", Js.JObject [ ("content", Js.JString text) ]) ] ]) ].

(** A page that already shows one row and has no API key stored. *)
Definition shownRow : LogEntry :=
  mkLogEntry "log-7" "2024-03-15T10:30:00.000Z" "ERROR" "disk full"
    (Some "Database") None None None (Some "500") None.

Definition pageWithRows : State :=
  mkState 1710498600000 "Database" [shownRow] false None None "" false ""
    [] [] [].

Definition pageWithKey : State :=
  mkState 1710498600000 "Database" [shownRow] false None None "" false
    "sk-test" [] [] [].

End LogViewer.

(** ** The log table *)

Module LogTable.

(** The columns built by [buildTextColumn], by accessor key.  The [copy]
    column has no accessor and can be neither sorted nor filtered. *)
Inductive ColumnId : Type :=
  | ColId | ColTimestamp | ColLevel | ColMessage | ColService | ColUser
  | ColComponent | ColAction | ColStatusCode | ColRequestId.

#[global] Instance ColumnId_eq_dec : EqDecision ColumnId.
Proof. solve_decision. Defined.

Definition columns : list ColumnId :=
  [ ColId; ColTimestamp; ColLevel; ColMessage; ColService; ColUser;
    ColComponent; ColAction; ColStatusCode; ColRequestId ].

(** [row.getValue(columnId)]: the field named by the accessor key. *)
Definition getValue (col : ColumnId) (row : LogEntry) : option string :=
  match col with
  | ColId => Some (id row)
  | ColTimestamp => Some (timestamp row)
  | ColLevel => Some (level row)
  | ColMessage => Some (message row)
  | ColService => service row
  | ColUser => user row
  | ColComponent => component row
  | ColAction => action row
  | ColStatusCode => statusCode row
  | ColRequestId => requestId row
  end.

(** *** Sorting *)

(** One entry of [SortingState]. *)
Record ColumnSort : Type := mkColumnSort { sortId : ColumnId; desc : bool }.

Inductive SortDirection : Type := Asc | Desc.

(** Modelled from the spec: [column.getIsSorted()] of the table library,
    which is not under src/: the direction of the column when it is the
    active sort key. *)
Definition getIsSorted (col : ColumnId) (sorting : list ColumnSort)
  : option SortDirection :=
  match List.find (fun s => bool_decide (sortId s = col)) sorting with
  | Some s => Some (if desc s then Desc else Asc)
  | None => None
  end.

(** Modelled from the spec: [column.toggleSorting(desc)] of the table
    library, which is not under src/.  The spec has "only one active sort
    key at a time (selecting a new column replaces the old one)": the column
    becomes the only sort key, in the direction asked for. *)
Definition toggleSorting (col : ColumnId) (descending : bool)
    (sorting : list ColumnSort) : list ColumnSort :=
  [ mkColumnSort col descending ].

(** The header button of a column:
    [onClick={() => column.toggleSorting(column.getIsSorted() === "asc")}]. *)
Definition clickHeader (col : ColumnId) (sorting : list ColumnSort)
  : list ColumnSort :=
  toggleSorting col
    (match getIsSorted col sorting with Some Asc => true | _ => false end)
    sorting.

(** Modelled from the spec: the comparison of two raw values of a column,
    which the table library makes and which is not under src/.  Strings
    compare by their code units; a missing value comes after every string. *)
Definition compareBasic (a b : option string) : comparison :=
  match a, b with
  | Some x, Some y => String.compare x y
  | Some _, None => Lt
  | None, Some _ => Gt
  | None, None => Eq
  end.

(** Modelled from the spec: the order of two rows "by the column's raw
    value". *)
Definition sortingFn (col : ColumnId) (a b : LogEntry) : comparison :=
  compareBasic (getValue col a) (getValue col b).

(** Modelled from the spec: the comparator of the sorted row model of the
    table library.  The first sort entry that tells the two rows apart
    decides, reversed when the entry is descending. *)
Fixpoint compareRows (sorting : list ColumnSort) (a b : LogEntry) : comparison :=
  match sorting with
  | [] => Eq
  | s :: rest =>
      match sortingFn (sortId s) a b with
      | Eq => compareRows rest a b
      | c => if desc s then CompOpp c else c
      end
  end.

(** [a] may stay in front of [b]. *)
Definition notAfter (sorting : list ColumnSort) (a b : LogEntry) : bool :=
  match compareRows sorting a b with
  | Gt => false
  | _ => true
  end.

(** Modelled from the spec: a "stable sort".  Each row goes in front of the
    first row of the sorted rest that it does not come after, so rows that
    tie keep their order. *)
Fixpoint insertSorted {A : Type} (le : A -> A -> bool) (x : A) (l : list A)
  : list A :=
  match l with
  | [] => [x]
  | y :: rest => if le x y then x :: l else y :: insertSorted le x rest
  end.

Definition stableSort {A : Type} (le : A -> A -> bool) (l : list A) : list A :=
  fold_right (insertSorted le) [] l.

(** The two orders that a comparison gives, and the lists in which no two
    entries tie. *)
Definition ascending {A : Type} (cmp : A -> A -> comparison) (a b : A) : bool :=
  match cmp a b with Gt => false | _ => true end.

Definition descending {A : Type} (cmp : A -> A -> comparison) (a b : A) : bool :=
  match cmp a b with Lt => false | _ => true end.

Fixpoint noTies {A : Type} (cmp : A -> A -> comparison) (l : list A) : Prop :=
  match l with
  | [] => True
  | x :: rest => Forall (fun y => cmp x y <> Eq) rest /\ noTies cmp rest
  end.

(** Modelled from the spec: [getSortedRowModel], the "stable sort by the
    column's raw value" of the table library, which is not under src/. *)
Definition getSortedRowModel (sorting : list ColumnSort) (rows : list LogEntry)
  : list LogEntry :=
  stableSort (notAfter sorting) rows.

(** *** Filtering *)

(** One entry of [ColumnFiltersState]. *)
Record ColumnFilter : Type := mkColumnFilter {
  filterId : ColumnId;
  filterValue : string
}.

(** Modelled from the spec: the filter function of the table library, which
    is not under src/: a "case-insensitive substring" test.  A missing
    value contains nothing. *)
Definition includesString (value : option string) (text : string) : bool :=
  match value with
  | Some v => Js.includes (Js.toLowerCase text) (Js.toLowerCase v)
  | None => false
  end.

(** Modelled from the spec: "multiple column filters compose with logical
    AND". *)
Definition passesColumnFilters (columnFilters : list ColumnFilter)
    (row : LogEntry) : bool :=
  forallb (fun f => includesString (getValue (filterId f) row) (filterValue f))
    columnFilters.

(** Modelled from the spec: the global filter, under which "every row whose
    serialized form does not contain text (case-insensitive substring) is
    excluded".  The serialized form of a row is read as the values of its
    columns: the text has to occur in one of them. *)
Definition passesGlobalFilter (globalFilter : string) (row : LogEntry) : bool :=
  existsb (fun col => includesString (getValue col row) globalFilter) columns.

(** The rows that pass the column filters alone, and the global filter
    alone. *)
Definition columnFiltered (columnFilters : list ColumnFilter)
    (rows : list LogEntry) : list LogEntry :=
  List.filter (passesColumnFilters columnFilters) rows.

Definition globallyFiltered (globalFilter : string) (rows : list LogEntry)
  : list LogEntry :=
  List.filter (passesGlobalFilter globalFilter) rows.

(** Modelled from the spec: [getFilteredRowModel] of the table library,
    which is not under src/, with the [columnFilters] and [globalFilter]
    state that [useReactTable] is given: the rows that pass every filter,
    in their order. *)
Definition getFilteredRowModel (columnFilters : list ColumnFilter)
    (globalFilter : string) (rows : list LogEntry) : list LogEntry :=
  List.filter
    (fun row => passesColumnFilters columnFilters row
                && passesGlobalFilter globalFilter row)
    rows.

(** *** Pagination *)

Record PaginationState : Type := mkPagination { pageIndex : Z; pageSize : Z }.

(** The items of the rows-per-page selector: [[10, 20, 30, 40, 50]]. *)
Inductive PageSizeOption : Type := Rows10 | Rows20 | Rows30 | Rows40 | Rows50.

Definition rowsOf (o : PageSizeOption) : Z :=
  match o with
  | Rows10 => 10 | Rows20 => 20 | Rows30 => 30 | Rows40 => 40 | Rows50 => 50
  end.

(** [Number(pageSize) || 10] *)
Definition tablePageSize (stored : Z) : Z := if stored =? 0 then 10 else stored.

(** The pagination of the table library ([getPageCount], [setPageIndex],
    [setPageSize], [previousPage], [nextPage], [getCanPreviousPage],
    [getCanNextPage]) is not under src/; [rowCount] is the number of rows
    that pass the filters. *)

(** [Math.ceil(a / b)] *)
Definition ceilDiv (a b : Z) : Z := - ((- a) / b).

(** Modelled from the spec: [table.getPageCount()], the "page count as
    ceil(filteredRowCount / N)". *)
Definition getPageCount (rowCount : Z) (p : PaginationState) : Z :=
  ceilDiv rowCount (pageSize p).

(** [Math.max(lo, Math.min(i, hi))] *)
Definition clamp (lo hi i : Z) : Z := Z.max lo (Z.min i hi).

(** Modelled from the spec: [table.setPageIndex(i)], where the "page index
    clamps to [0, ceil(filteredCount / pageSize) - 1]". *)
Definition setPageIndex (rowCount i : Z) (p : PaginationState)
  : PaginationState :=
  mkPagination (clamp 0 (getPageCount rowCount p - 1) i) (pageSize p).

(** Modelled from the spec: [table.setPageSize(n)]; "changing page size to
    N recomputes page count [...] and the current page index clamps into
    range". *)
Definition setPageSize (rowCount n : Z) (p : PaginationState)
  : PaginationState :=
  setPageIndex rowCount (pageIndex p) (mkPagination (pageIndex p) n).

(** Modelled from the spec: [table.previousPage()] and [table.nextPage()],
    one page back and one page on, clamped. *)
Definition previousPage (rowCount : Z) (p : PaginationState) : PaginationState :=
  setPageIndex rowCount (pageIndex p - 1) p.

Definition nextPage (rowCount : Z) (p : PaginationState) : PaginationState :=
  setPageIndex rowCount (pageIndex p + 1) p.

(** Modelled from the spec: [table.getCanPreviousPage()] and
    [table.getCanNextPage()]: there is a page before, or after, the current
    one. *)
Definition getCanPreviousPage (p : PaginationState) : bool := 0 <? pageIndex p.

Definition getCanNextPage (rowCount : Z) (p : PaginationState) : bool :=
  pageIndex p <? getPageCount rowCount p - 1.

(** What the user does in the pagination bar. *)
Inductive PageEvent : Type :=
  | SelectPageSize (o : PageSizeOption)
  | ClickFirst
  | ClickPrevious
  | ClickNext
  | ClickLast.

(** The handlers of the pagination bar.  Choosing a page size stores
    [Number(value)], and the effect passes [tablePageSize] to the table.  A
    button whose [disabled] condition holds does nothing. *)
Definition handle (rowCount : Z) (p : PaginationState) (e : PageEvent)
  : PaginationState :=
  match e with
  | SelectPageSize o => setPageSize rowCount (tablePageSize (rowsOf o)) p
  | ClickFirst =>
      if getCanPreviousPage p then setPageIndex rowCount 0 p else p
  | ClickPrevious =>
      if getCanPreviousPage p then previousPage rowCount p else p
  | ClickNext =>
      if getCanNextPage rowCount p then nextPage rowCount p else p
  | ClickLast =>
      if getCanNextPage rowCount p
      then setPageIndex rowCount (getPageCount rowCount p - 1) p
      else p
  end.

Definition handleAll (rowCount : Z) (p : PaginationState) (es : list PageEvent)
  : PaginationState :=
  fold_left (handle rowCount) es p.

(** The page index is on a page, or 0 when there is no page. *)
Definition inRange (rowCount : Z) (p : PaginationState) : Prop :=
  0 <= pageIndex p <= Z.max 0 (getPageCount rowCount p - 1).

(** *** Example rows *)

Definition row1 : LogEntry :=
  mkLogEntry "1" "2024-03-15T10:30:00.000Z" "INFO" "a"
    None None None None None None.
Definition row2 : LogEntry :=
  mkLogEntry "2" "2024-03-15T10:31:00.000Z" "ERROR" "b"
    None None None None None None.
Definition row3 : LogEntry :=
  mkLogEntry "3" "2024-03-15T10:32:00.000Z" "INFO" "c"
    None None None None None None.

End LogTable.

(** ** The settings page *)

Module Settings.

(** *** Time zone labels *)

Module Tzdb.

(** An entry of [rawTimeZones], the table of the time zone database
    package; of its fields the page reads [name] and [alternativeName],
    both strings. *)
Record RawTimeZone : Type := mkRawTimeZone {
  name : string;
  alternativeName : string
}.

End Tzdb.

Section TimeZones.

(** The table itself is data of the package. *)
Variable rawTimeZones : list Tzdb.RawTimeZone.

(** [new Map(rawTimeZones.map((z) => [z.name, z]))]: the entries are set in
    the order of the table, so the last entry of a name is the one kept. *)
Definition TZ_RECORD : gmap string Tzdb.RawTimeZone :=
  fold_left (fun m z => <[Tzdb.name z := z]> m) rawTimeZones ∅.

(** [TZ_RECORD.get(tz)?.alternativeName ?? tz.replace(/_/g, " ")] *)
Definition getTimezoneLabel (tz : string) : string :=
  match TZ_RECORD !! tz with
  | Some z => Tzdb.alternativeName z
  | None => Js.replaceUnderscores tz
  end.

End TimeZones.

(** *** The state of the page *)

Record Service : Type := mkService { name : string; endpoint : string }.

Definition DEFAULT_SERVICES : list Service :=
  [ mkService "API Server" "https://api.example.com/logs";
    mkService "Web Server" "https://web.example.com/logs";
    mkService "Database" "https://db.example.com/logs" ].

Definition DEFAULT_PAGE_SIZE : Z := 10.

(** The stored settings ([useLocalStorage]), the two inputs of the "add
    service" form, and the toasts shown. *)
Record State : Type := mkState {
  services : list Service;
  newServiceName : string;
  newServiceEndpoint : string;
  primaryTimezone : string;
  pageSize : Z;
  showLineNumbers : bool;
  dateFormat : string;
  timeFormat : string;
  openAIApiKey : string;
  toasts : list Toast
}.

Definition setServices (v : list Service) (s : State) : State :=
  mkState v (newServiceName s) (newServiceEndpoint s) (primaryTimezone s)
    (pageSize s) (showLineNumbers s) (dateFormat s) (timeFormat s)
    (openAIApiKey s) (toasts s).

Definition setNewServiceName (v : string) (s : State) : State :=
  mkState (services s) v (newServiceEndpoint s) (primaryTimezone s)
    (pageSize s) (showLineNumbers s) (dateFormat s) (timeFormat s)
    (openAIApiKey s) (toasts s).

Definition setNewServiceEndpoint (v : string) (s : State) : State :=
  mkState (services s) (newServiceName s) v (primaryTimezone s)
    (pageSize s) (showLineNumbers s) (dateFormat s) (timeFormat s)
    (openAIApiKey s) (toasts s).

Definition setPrimaryTimezone (v : string) (s : State) : State :=
  mkState (services s) (newServiceName s) (newServiceEndpoint s) v
    (pageSize s) (showLineNumbers s) (dateFormat s) (timeFormat s)
    (openAIApiKey s) (toasts s).

Definition setPageSize (v : Z) (s : State) : State :=
  mkState (services s) (newServiceName s) (newServiceEndpoint s)
    (primaryTimezone s) v (showLineNumbers s) (dateFormat s) (timeFormat s)
    (openAIApiKey s) (toasts s).

Definition setShowLineNumbers (v : bool) (s : State) : State :=
  mkState (services s) (newServiceName s) (newServiceEndpoint s)
    (primaryTimezone s) (pageSize s) v (dateFormat s) (timeFormat s)
    (openAIApiKey s) (toasts s).

Definition setDateFormat (v : string) (s : State) : State :=
  mkState (services s) (newServiceName s) (newServiceEndpoint s)
    (primaryTimezone s) (pageSize s) (showLineNumbers s) v (timeFormat s)
    (openAIApiKey s) (toasts s).

Definition setTimeFormat (v : string) (s : State) : State :=
  mkState (services s) (newServiceName s) (newServiceEndpoint s)
    (primaryTimezone s) (pageSize s) (showLineNumbers s) (dateFormat s) v
    (openAIApiKey s) (toasts s).

Definition setOpenAIApiKey (v : string) (s : State) : State :=
  mkState (services s) (newServiceName s) (newServiceEndpoint s)
    (primaryTimezone s) (pageSize s) (showLineNumbers s) (dateFormat s)
    (timeFormat s) v (toasts s).

Definition toast (t : Toast) (s : State) : State :=
  mkState (services s) (newServiceName s) (newServiceEndpoint s)
    (primaryTimezone s) (pageSize s) (showLineNumbers s) (dateFormat s)
    (timeFormat s) (openAIApiKey s) (toasts s ++ [t]).

(** *** The service list *)

Definition missingFieldToast : Toast :=
  mkToast "Error"
    "Please provide both a name and endpoint for the new service."
    Destructive.

Definition nameExistsToast : Toast :=
  mkToast "Error" "A service with this name already exists." Destructive.

Definition serviceAddedToast : Toast :=
  mkToast "Success" "Service added successfully." DefaultVariant.

Definition serviceRemovedToast : Toast :=
  mkToast "Success" "Service removed successfully." DefaultVariant.

Definition settingsResetToast : Toast :=
  mkToast "Success" "Settings reset to defaults." DefaultVariant.

(** [services.some((s) => s.name === newServiceName)] *)
Definition nameExists (s : State) : bool :=
  existsb (fun x => String.eqb (name x) (newServiceName s)) (services s).

Definition addService (s : State) : State :=
  if negb (Js.truthy (newServiceName s))
     || negb (Js.truthy (newServiceEndpoint s))
  then toast missingFieldToast s
  else if nameExists s then toast nameExistsToast s
  else
    let s :=
      setServices
        (services s ++ [mkService (newServiceName s) (newServiceEndpoint s)]) s in
    let s := setNewServiceName "" s in
    let s := setNewServiceEndpoint "" s in
    toast serviceAddedToast s.

Definition removeService (n : string) (s : State) : State :=
  let s :=
    setServices
      (List.filter (fun x => negb (String.eqb (name x) n)) (services s)) s in
  toast serviceRemovedToast s.

(** The [onChange] of the endpoint input of the service named [n]:
    [services.map((s) => s.name === n ? { ...s, endpoint: value } : s)]. *)
Definition editEndpoint (n value : string) (s : State) : State :=
  setServices
    (map (fun x => if String.eqb (name x) n then mkService (name x) value else x)
       (services s)) s.

(** [detected] is [Intl.DateTimeFormat().resolvedOptions().timeZone], the
    time zone of the browser. *)
Definition resetToDefaults (detected : string) (s : State) : State :=
  let s := setServices DEFAULT_SERVICES s in
  let s := setPrimaryTimezone detected s in
  let s := setPageSize DEFAULT_PAGE_SIZE s in
  let s := setShowLineNumbers true s in
  let s := setDateFormat "yyyy-MM-dd" s in
  let s := setTimeFormat "HH:mm:ss" s in
  toast settingsResetToast s.

(** What can happen to the service list on the page. *)
Inductive Operation : Type :=
  | TypeServiceName (v : string)
  | TypeServiceEndpoint (v : string)
  | AddService
  | RemoveService (n : string)
  | EditEndpoint (n value : string)
  | TypeApiKey (v : string)
  | ResetToDefaults (detected : string).

Definition apply (s : State) (op : Operation) : State :=
  match op with
  | TypeServiceName v => setNewServiceName v s
  | TypeServiceEndpoint v => setNewServiceEndpoint v s
  | AddService => addService s
  | RemoveService n => removeService n s
  | EditEndpoint n value => editEndpoint n value s
  | TypeApiKey v => setOpenAIApiKey v s
  | ResetToDefaults detected => resetToDefaults detected s
  end.

Definition applyAll (s : State) (ops : list Operation) : State :=
  fold_left apply ops s.

Definition serviceNames (s : State) : list string := map name (services s).

(** The page as it opens with nothing stored, in a browser whose time zone
    is [detected]. *)
Definition initialState (detected : string) : State :=
  mkState DEFAULT_SERVICES "" "" detected DEFAULT_PAGE_SIZE true
    "yyyy-MM-dd" "HH:mm:ss" "" [].

End Settings.

(** ** The rest of the log viewer page: the service picker *)

Module ServicePicker.

Import LogViewer.

(** [services.find((s) => s.name === selectedService) || services[0]];
    [None] is [undefined]. *)
Definition currentService (services : list Settings.Service)
    (selectedService : string) : option Settings.Service :=
  match
    List.find (fun s => String.eqb (Settings.name s) selectedService) services
  with
  | Some s => Some s
  | None => head services
  end.

(** First and last character of a string. *)
Definition firstChar (s : string) : option ascii :=
  match s with
  | EmptyString => None
  | String c _ => Some c
  end.

Fixpoint lastChar (s : string) : option ascii :=
  match s with
  | EmptyString => None
  | String c EmptyString => Some c
  | String _ rest => lastChar rest
  end.

Definition notWhiteSpace (c : option ascii) : bool :=
  match c with
  | Some c => negb (Js.isWhiteSpace c)
  | None => true
  end.

End ServicePicker.

(** ** The rest of the log table: column search and clearing *)

Module TableControls.

Import LogTable.

(** The accessor key of a column, which is its id. *)
Definition accessorKey (col : ColumnId) : string :=
  match col with
  | ColId => "id"
  | ColTimestamp => "timestamp"
  | ColLevel => "level"
  | ColMessage => "message"
  | ColService => "service"
  | ColUser => "user"
  | ColComponent => "component"
  | ColAction => "action"
  | ColStatusCode => "statusCode"
  | ColRequestId => "requestId"
  end.

(** The state cells of [LogTable] for the filters and the column search. *)
Record State : Type := mkState {
  columnFilters : list ColumnFilter;
  globalFilter : string;
  columnSearchVisible : gmap string bool
}.

(** [columnSearchVisible[accessorKey]], read as a condition: a key that is
    not set is [undefined]. *)
Definition searchVisible (s : State) (col : ColumnId) : bool :=
  match columnSearchVisible s !! accessorKey col with
  | Some b => b
  | None => false
  end.

(** [setColumnSearchVisible((prev) => ({ ...prev, [columnId]: !prev[columnId] }))] *)
Definition toggleColumnSearch (col : ColumnId) (s : State) : State :=
  mkState (columnFilters s) (globalFilter s)
    (<[accessorKey col := negb (searchVisible s col)]> (columnSearchVisible s)).

(** [Object.values(columnSearchVisible).some(Boolean)] *)
Definition hasActiveColumnSearch (s : State) : bool :=
  bool_decide (map_Exists (fun _ b => b = true) (columnSearchVisible s)).

(** [table.getState().columnFilters.length > 0] *)
Definition hasActiveFilters (s : State) : bool :=
  match columnFilters s with
  | [] => false
  | _ :: _ => true
  end.

(** The condition under which the "Clear Filters" button is rendered. *)
Definition clearButtonShown (s : State) : bool :=
  hasActiveFilters s || hasActiveColumnSearch s.

(** [table.resetColumnFilters(); setColumnSearchVisible({})]: the table
    goes back to the column filters it was created with, which are none. *)
Definition clearAllFilters (s : State) : State :=
  mkState [] (globalFilter s) ∅.

(** [onChange={(e) => setGlobalFilter(e.target.value)}] *)
Definition setGlobalFilter (v : string) (s : State) : State :=
  mkState (columnFilters s) v (columnSearchVisible s).

(** The table as it is first rendered: [useState([])], [useState("")] and
    [useState({})]. *)
Definition initialState : State := mkState [] "" ∅.

(** [onColumnFiltersChange: setColumnFilters]: the table hands over the
    new list of column filters. *)
Definition setColumnFilters (v : list ColumnFilter) (s : State) : State :=
  mkState v (globalFilter s) (columnSearchVisible s).

(** What happens to these cells while the table is used. *)
Inductive Action : Type :=
  | ToggleColumnSearch (col : ColumnId)
  | TypeGlobalFilter (v : string)
  | ColumnFiltersChange (v : list ColumnFilter)
  | ClearAllFilters.

Definition act (s : State) (a : Action) : State :=
  match a with
  | ToggleColumnSearch col => toggleColumnSearch col s
  | TypeGlobalFilter v => setGlobalFilter v s
  | ColumnFiltersChange v => setColumnFilters v s
  | ClearAllFilters => clearAllFilters s
  end.

Definition actAll (s : State) (actions : list Action) : State :=
  fold_left act actions s.

(** The keys of [columnSearchVisible] are accessor keys. *)
Definition columnKeysOnly (s : State) : Prop :=
  forall k b,
    columnSearchVisible s !! k = Some b -> exists col, k = accessorKey col.

End TableControls.

(** ** The rest of the settings page: the time zone picker *)

Module TimeZonePicker.

(** [name.split("/")[0]]: the text before the first slash. *)
Fixpoint firstSegment (s : string) : string :=
  match s with
  | EmptyString => EmptyString
  | String c rest =>
      if Ascii.eqb c "/" then EmptyString else String c (firstSegment rest)
  end.

(** [name.split("/")[0] || "Other"] *)
Definition regionOf (name : string) : string :=
  Js.or_else (firstSegment name) "Other".

(** The accumulator of the [reduce] is an object literal: its own
    properties, in the order of their creation, and the properties that
    every object inherits from [Object.prototype]. *)
Definition inheritedKeys : list string :=
  [ "constructor"; "__defineGetter__"; "__defineSetter__"; "hasOwnProperty";
    "__lookupGetter__"; "__lookupSetter__"; "isPrototypeOf";
    "propertyIsEnumerable"; "toString"; "valueOf"; "__proto__";
    "toLocaleString" ].

Definition isInherited (k : string) : bool :=
  existsb (String.eqb k) inheritedKeys.

(** [(acc[region] ??= []).push(name)] for a region that is not inherited:
    the name goes to the end of the list of its region, and a region seen
    for the first time becomes the last own property. *)
Fixpoint pushName (region name : string) (acc : list (string * list string))
  : list (string * list string) :=
  match acc with
  | [] => [(region, [name])]
  | (r, names) :: rest =>
      if String.eqb r region then (r, names ++ [name]) :: rest
      else (r, names) :: pushName region name rest
  end.

(** One call of the reducer.  For an inherited key, [acc[region]] is a
    function or an object without [push], and the call throws: [None]. *)
Definition addZone (acc : option (list (string * list string)))
    (name : string) : option (list (string * list string)) :=
  match acc with
  | None => None
  | Some groups =>
      if isInherited (regionOf name) then None
      else Some (pushName (regionOf name) name groups)
  end.

(** The value of a digit string. *)
Fixpoint digitsValue (acc : Z) (s : string) : option Z :=
  match s with
  | EmptyString => Some acc
  | String c rest =>
      match JsDate.digitValue c with
      | Some d => digitsValue (10 * acc + d) rest
      | None => None
      end
  end.

(** A property key that is an array index: the canonical decimal form of an
    integer below 2^32 - 1. *)
Definition arrayIndex (k : string) : option Z :=
  match k with
  | EmptyString => None
  | _ =>
      match digitsValue 0 k with
      | Some v =>
          if String.eqb (JsDate.decimal v) k && (v <? 4294967295) then Some v
          else None
      | None => None
      end
  end.

Definition isArrayIndex (entry : string * list string) : bool :=
  match arrayIndex (fst entry) with
  | Some _ => true
  | None => false
  end.

Definition indexLe (a b : string * list string) : bool :=
  match arrayIndex (fst a), arrayIndex (fst b) with
  | Some x, Some y => x <=? y
  | _, _ => true
  end.

(** [Object.entries]: the keys that are array indices in ascending order,
    then the other keys in the order of their creation. *)
Definition entries (acc : list (string * list string))
  : list (string * list string) :=
  LogTable.stableSort indexLe (List.filter isArrayIndex acc)
  ++ List.filter (fun e => negb (isArrayIndex e)) acc.

(** One element of [TIMEZONE_DATA]. *)
Record Group : Type := mkGroup { region : string; timezones : list string }.

(** [TIMEZONE_DATA], computed when the module is loaded; [None] when the
    [reduce] throws. *)
Definition TIMEZONE_DATA (rawTimeZones : list Settings.Tzdb.RawTimeZone)
  : option (list Group) :=
  match
    fold_left addZone (map Settings.Tzdb.name rawTimeZones) (Some [])
  with
  | Some acc => Some (map (fun e => mkGroup (fst e) (snd e)) (entries acc))
  | None => None
  end.

(** What the accumulator of the [reduce] holds for the names seen: one
    property for each region, whose value lists the names of the region in
    the order seen. *)
Definition grouped (acc : list (string * list string)) (names : list string)
  : Prop :=
  NoDup (map fst acc)
  /\ (forall r l, In (r, l) acc ->
        l <> []
        /\ l = List.filter (fun n => String.eqb (regionOf n) r) names)
  /\ (forall n, In n names -> In (regionOf n) (map fst acc)).

(** The cells of the picker. *)
Record State : Type := mkState {
  primaryTimezone : string;
  timezoneSearch : string;
  timezoneOpen : bool
}.

(** [handleSelectTz] *)
Definition handleSelectTz (tz : string) (s : State) : State :=
  mkState tz "" false.

Section Zones.

Variable rawTimeZones : list Settings.Tzdb.RawTimeZone.

(** [getTimezoneOffset], which formats the offset of a zone at the current
    time; it is a function of the zone for the time of one rendering. *)
Variable getTimezoneOffset : string -> string.

(** The predicate of the [filter] inside [filteredZones]. *)
Definition zoneMatches (q tz : string) : bool :=
  Js.includes q (Js.toLowerCase tz)
  || Js.includes q (Js.toLowerCase (Settings.getTimezoneLabel rawTimeZones tz))
  || Js.includes q (Js.toLowerCase (getTimezoneOffset tz)).

(** [filteredZones] for the search text and the groups of [TIMEZONE_DATA]. *)
Definition filteredZones (timezoneSearch : string) (data : list Group)
  : list Group :=
  let q := Js.toLowerCase (Js.trim timezoneSearch) in
  List.filter
    (fun g => match timezones g with [] => false | _ :: _ => true end)
    (map
       (fun g =>
          mkGroup (region g)
            (if Js.truthy q then List.filter (zoneMatches q) (timezones g)
             else timezones g))
       data).

End Zones.

End TimeZonePicker.

(** ** The rest of the settings page: the rows of the service list *)

Module ServiceRows.

Import Settings.

(** [s.replace(/\s+/g, "-")]: every run of white space becomes one hyphen.
    [inRun] tells that the character before was white space. *)
Fixpoint replaceWhiteSpaceRuns (inRun : bool) (s : string) : string :=
  match s with
  | EmptyString => EmptyString
  | String c rest =>
      if Js.isWhiteSpace c
      then if inRun then replaceWhiteSpaceRuns true rest
           else String "-" (replaceWhiteSpaceRuns true rest)
      else String c (replaceWhiteSpaceRuns false rest)
  end.

(** Every character of the string passes the test. *)
Fixpoint forallChars (p : ascii -> bool) (s : string) : bool :=
  match s with
  | EmptyString => true
  | String c rest => p c && forallChars p rest
  end.

(** A code unit of the ASCII range.  There the lower case of a letter and
    the class [\s] are those of [Js.toLowerCase] and [Js.isWhiteSpace]. *)
Definition isAscii (c : ascii) : bool := (nat_of_ascii c <? 128)%nat.

Section Platform.

(** Outside the ASCII range the lower case of a letter and the white space
    are those of the Unicode tables of the platform, and the lower case of a
    name can be longer than the name; the badge of a name with such a code
    unit is what the platform makes of it. *)
Variable unicodeServiceId : string -> string.

(** The badge of a row: [service.name.toLowerCase().replace(/\s+/g, "-")]. *)
Definition serviceId (n : string) : string :=
  if forallChars isAscii n
  then replaceWhiteSpaceRuns false (Js.toLowerCase n)
  else unicodeServiceId n.

End Platform.

(** The letters A to Z. *)
Definition isUpperCase (c : ascii) : bool :=
  let n := nat_of_ascii c in (65 <=? n)%nat && (n <=? 90)%nat.

(** [disabled={services.length <= 1}] of the remove button. *)
Definition removeDisabled (s : State) : bool :=
  match services s with
  | [] | [_] => true
  | _ => false
  end.

(** What the user can do to the service list.  A remove button belongs to
    the row of a service, and a disabled one does nothing. *)
Inductive Click : Type :=
  | TypeName (v : string)
  | TypeEndpoint (v : string)
  | ClickAdd
  | ClickRemove (n : string)
  | TypeRowEndpoint (n value : string).

Definition click (s : State) (c : Click) : State :=
  match c with
  | TypeName v => setNewServiceName v s
  | TypeEndpoint v => setNewServiceEndpoint v s
  | ClickAdd => addService s
  | ClickRemove n => if removeDisabled s then s else removeService n s
  | TypeRowEndpoint n value => editEndpoint n value s
  end.

Definition clicks (s : State) (cs : list Click) : State :=
  fold_left click cs s.

End ServiceRows.

(** * Properties

    The second part proves what the pages do, module by module. *)

(** ** The calendar *)

Module JsDateFacts.

Import JsDate.

Example civilFromDays_epoch : civilFromDays 0 = mkCivil 1970 1 1.
Proof. reflexivity. Qed.

Example civilFromDays_leap_day : civilFromDays 11016 = mkCivil 2000 2 29.
Proof. reflexivity. Qed.

Example daysFromCivil_2024_03_15 : daysFromCivil 2024 3 15 = 19797.
Proof. reflexivity. Qed.

Example format_pads : format_yyyy_MM_dd (mkCivil 987 6 5) = "0987-06-05".
Proof. reflexivity. Qed.

Example parse_date_only : parse "2024-03-15" = Some 1710460800000.
Proof. reflexivity. Qed.

Example parse_no_such_day : parse "2023-02-29" = None.
Proof. reflexivity. Qed.

Lemma allFrom_spec check n : forall from z,
  allFrom check n from = true -> from <= z < from + Z.of_nat n -> check z = true.
Proof.
  induction n as [| n IH]; intros from z H Hz; [lia |].
  cbn [allFrom] in H. apply andb_prop in H as [H0 H1].
  destruct (Z.eq_dec z from) as [-> | Hne]; [exact H0 |].
  apply (IH (from + 1)); [exact H1 | lia].
Qed.

Lemma allBetween_spec check lo hi z :
  allBetween check lo hi = true -> lo <= z <= hi -> check z = true.
Proof.
  intros H Hz.
  apply (allFrom_spec check (Z.to_nat (hi - lo + 1)) lo); [exact H |].
  rewrite Z2Nat.id; lia.
Qed.

(** Every day of an era converts to a valid date and back. *)
Lemma eraDays_ok : allBetween eraDayOk 0 (daysPerEra - 1) = true.
Proof. vm_compute. reflexivity. Qed.

Lemma eraDayOk_all doe : 0 <= doe < daysPerEra -> eraDayOk doe = true.
Proof.
  intros H.
  apply (allBetween_spec eraDayOk 0 (daysPerEra - 1)); [apply eraDays_ok | lia].
Qed.

Lemma isLeapYear_period y k : isLeapYear (y + k * 400) = isLeapYear y.
Proof.
  unfold isLeapYear.
  replace ((y + k * 400) mod 4) with (y mod 4)
    by (replace (y + k * 400) with (y + (k * 100) * 4) by lia;
        now rewrite Z_mod_plus_full).
  replace ((y + k * 400) mod 100) with (y mod 100)
    by (replace (y + k * 400) with (y + (k * 4) * 100) by lia;
        now rewrite Z_mod_plus_full).
  now rewrite Z_mod_plus_full.
Qed.

Lemma daysInMonth_period y k m : daysInMonth (y + k * 400) m = daysInMonth y m.
Proof. unfold daysInMonth. now rewrite isLeapYear_period. Qed.

Lemma daysInMonth_le_31 y m : daysInMonth y m <= 31.
Proof.
  unfold daysInMonth.
  repeat match goal with |- context [if ?b then _ else _] => destruct b end; lia.
Qed.

(** The date of a day number is a valid date, and it converts back to the
    day number. *)
Lemma civilFromDays_spec z :
  daysFromCivil (year (civilFromDays z)) (month (civilFromDays z))
    (day (civilFromDays z)) = z
  /\ validCivil (civilFromDays z) = true.
Proof.
  unfold civilFromDays, daysFromCivil, validCivil. cbn [year month day].
  set (z' := z + epochShift).
  set (era := z' / daysPerEra).
  assert (Hdoe : 0 <= z' - era * daysPerEra < daysPerEra).
  { unfold era, daysPerEra. pose proof (Z.mod_pos_bound z' 146097 ltac:(lia)).
    rewrite Z.mod_eq in H by lia. lia. }
  pose proof (eraDayOk_all _ Hdoe) as Hok. unfold eraDayOk in Hok.
  set (c := civilOfEraDay (z' - era * daysPerEra)) in *.
  repeat (apply andb_prop in Hok as [Hok ?]).
  set (adj := if month c <=? 2 then 1 else 0) in *.
  replace (year c + era * 400 + adj - adj) with (year c + era * 400) by lia.
  assert (Hera : (year c + era * 400) / 400 = era).
  { rewrite Z.div_add by lia. rewrite Z.div_small by lia. lia. }
  rewrite Hera.
  replace (year c + era * 400 - era * 400) with (year c) by lia.
  split.
  - apply Z.eqb_eq in Hok. rewrite Hok. unfold z'. lia.
  - replace (year c + era * 400 + adj) with (year c + adj + era * 400) by lia.
    rewrite daysInMonth_period.
    repeat (apply andb_true_intro; split); assumption.
Qed.

Lemma years_ok : allBetween yearOk 1 9999 = true.
Proof. vm_compute. reflexivity. Qed.

Lemma twoDigits_ok : allBetween twoDigitsOk 1 31 = true.
Proof. vm_compute. reflexivity. Qed.

(** A valid date of the years 1 to 9999 is read back from its
    [yyyy-MM-dd] form. *)
Lemma parseDateOnly_format c :
  1 <= year c <= 9999 -> validCivil c = true ->
  parseDateOnly (format_yyyy_MM_dd c) = Some c.
Proof.
  intros Hy Hv. unfold validCivil in Hv.
  repeat (apply andb_prop in Hv as [Hv ?]).
  pose proof (daysInMonth_le_31 (year c) (month c)).
  assert (Hyear : yearOk (year c) = true)
    by (apply (allBetween_spec yearOk 1 9999); [apply years_ok | lia]).
  assert (Hmonth : twoDigitsOk (month c) = true)
    by (apply (allBetween_spec twoDigitsOk 1 31); [apply twoDigits_ok | lia]).
  assert (Hday : twoDigitsOk (day c) = true)
    by (apply (allBetween_spec twoDigitsOk 1 31); [apply twoDigits_ok | lia]).
  unfold format_yyyy_MM_dd, yyyy, MM, dd.
  replace (0 <? year c) with true by (symmetry; apply Z.ltb_lt; lia).
  unfold yearOk in Hyear. unfold twoDigitsOk in Hmonth, Hday.
  destruct (addLeadingZeros (year c) 4) as [| y1 [| y2 [| y3 [| y4 [|]]]]];
    try discriminate.
  destruct (addLeadingZeros (month c) 2) as [| m1 [| m2 [|]]]; try discriminate.
  destruct (addLeadingZeros (day c) 2) as [| d1 [| d2 [|]]]; try discriminate.
  destruct (number4 y1 y2 y3 y4) as [vy |] eqn:Ey; [| discriminate].
  destruct (number2 m1 m2) as [vm |] eqn:Em; [| discriminate].
  destruct (number2 d1 d2) as [vd |] eqn:Ed; [| discriminate].
  apply Z.eqb_eq in Hyear, Hmonth, Hday. subst vy vm vd.
  simpl. rewrite Ey, Em, Ed. destruct c; reflexivity.
Qed.

Lemma parse_format c :
  1 <= year c <= 9999 -> validCivil c = true ->
  parse (format_yyyy_MM_dd c)
  = Some (daysFromCivil (year c) (month c) (day c) * msPerDay).
Proof.
  intros Hy Hv. unfold parse. rewrite (parseDateOnly_format c Hy Hv).
  cbn [mbind option_bind]. now rewrite Hv.
Qed.

(** Midnight UTC of a day falls on that day in local time where the zone
    is not behind UTC at that instant. *)
Lemma localCivil_of_midnight tz (z : Z) :
  0 <= tz (z * msPerDay) < msPerDay ->
  localCivil tz (z * msPerDay) = civilFromDays z.
Proof.
  intros Htz. unfold localCivil. f_equal.
  rewrite Z.add_comm, Z.div_add by (unfold msPerDay; lia).
  rewrite Z.div_small by exact Htz. lia.
Qed.

End JsDateFacts.

(** ** The log viewer page *)

Module LogViewerFacts.

Import LogViewer.

Example trim_both_ends : Js.trim "  a b  " = "a b".
Proof. reflexivity. Qed.

Example explanationOf_error_body :
  explanationOf (Js.JObject [ ("error", Js.JString "invalid key") ])
  = inr "No explanation".
Proof. reflexivity. Qed.

Example explanationOf_null : exists e, explanationOf Js.JNull = inl e.
Proof. eexists. reflexivity. Qed.

(** *** Properties of [fetchLogs] *)

Lemma fetchLogs_success iso s :
  logs (fetchLogs (Completed iso) s) = mockLogs iso (selectedService s)
  /\ error (fetchLogs (Completed iso) s) = None
  /\ loading (fetchLogs (Completed iso) s) = false.
Proof. repeat split. Qed.

(** While the fetch is pending the page shows the skeleton. *)
Lemma fetchLogsStart_view s : render (fetchLogsStart s) = Skeleton.
Proof. reflexivity. Qed.

(** Whatever the page has become while the fetch was pending, a failure
    leaves its rows in place. *)
Lemma fetchLogsSettle_failure selected e s :
  logs (fetchLogsSettle selected (Threw e) s) = logs s
  /\ error (fetchLogsSettle selected (Threw e) s) = Some (errorMessage e)
  /\ loading (fetchLogsSettle selected (Threw e) s) = false.
Proof. repeat split. Qed.

(** C1 (as stated, refuted): after a failed fetch the rows fetched before
    are still in the [logs] cell. *)
Lemma fetchLogs_failure_keeps_rows :
  ~ (error (fetchLogs (Threw (Js.ErrorObject "Network down")) pageWithRows)
       = Some "Network down"
     /\ logs (fetchLogs (Threw (Js.ErrorObject "Network down")) pageWithRows)
       = []).
Proof. intros [_ Hlogs]. discriminate Hlogs. Qed.

(** C1 (amended): when the [try] block of [fetchLogs] throws, the error
    cell holds the thrown error's message (or the fixed text for a value
    that is no [Error]), the failure toast is shown, loading ends, and the
    [logs] cell is left as it was: the rows are not cleared.  The page then
    renders the error panel in place of the table as long as the message is
    not empty. *)
Theorem fetchLogs_failure e s :
  error (fetchLogs (Threw e) s) = Some (errorMessage e)
  /\ loading (fetchLogs (Threw e) s) = false
  /\ logs (fetchLogs (Threw e) s) = logs s
  /\ toasts (fetchLogs (Threw e) s) = toasts s ++ [fetchLogsFailedToast]
  /\ render (fetchLogs (Threw e) s)
     = if Js.truthy (errorMessage e) then ErrorPanel (errorMessage e)
       else Table (logs s).
Proof. repeat split. Qed.

(** *** Properties of [viewWithLLM] *)

(** C2: with no API key stored, [viewWithLLM] sends no request, shows the
    missing-key toast and returns with the explanation text and the loading
    flag as they were, whatever the network would have answered. *)
Theorem viewWithLLM_missing_key entry outcome s :
  openAIApiKey s = "" ->
  requests (viewWithLLM entry outcome s) = requests s
  /\ toasts (viewWithLLM entry outcome s) = toasts s ++ [missingKeyToast]
  /\ llmExplanation (viewWithLLM entry outcome s) = llmExplanation s
  /\ llmLoading (viewWithLLM entry outcome s) = llmLoading s.
Proof.
  intros Hkey. unfold viewWithLLM. cbn [openAIApiKey setSelectedLog].
  rewrite Hkey. repeat split.
Qed.

Lemma viewWithLLM_missing_key_witness :
  requests (viewWithLLM shownRow (Parsed (completion "ok")) pageWithRows) = []
  /\ toasts (viewWithLLM shownRow (Parsed (completion "ok")) pageWithRows)
     = [missingKeyToast]
  /\ llmExplanation (viewWithLLM shownRow (Parsed (completion "ok")) pageWithRows)
     = ""
  /\ llmLoading (viewWithLLM shownRow (Parsed (completion "ok")) pageWithRows)
     = false.
Proof.
  apply (viewWithLLM_missing_key shownRow (Parsed (completion "ok")) pageWithRows).
  reflexivity.
Defined.

Lemma explanationOf_completion text :
  explanationOf (completion text)
  = inr (Js.or_else (Js.trim text) "No explanation").
Proof. reflexivity. Qed.

(** X4: with a key, [viewWithLLM] sends one request, to the completion
    service with the key as bearer token and the entry, whether the call
    then succeeds or fails: nothing is sent again. *)
Lemma viewWithLLM_sends_one_request entry outcome s :
  Js.truthy (openAIApiKey s) = true ->
  requests (viewWithLLM entry outcome s)
  = requests s ++ [completionRequest (openAIApiKey s) entry].
Proof.
  intros Hkey. unfold viewWithLLM, viewWithLLMSettle.
  cbn [openAIApiKey setSelectedLog]. rewrite Hkey. cbn [negb].
  destruct outcome as [e | e | data]; try reflexivity.
  destruct (explanationOf data); reflexivity.
Qed.

(** C3 (as stated, refuted): a completion text with white space around it
    is not displayed unchanged. *)
Lemma viewWithLLM_not_verbatim :
  llmExplanation
    (viewWithLLM shownRow (Parsed (completion "  The disk is full. ")) pageWithKey)
  <> "  The disk is full. ".
Proof. discriminate. Qed.

(** C3 (amended): with a non-empty API key, a response that parses is
    displayed as [explanationOf] computes it: the completion text with the
    white space at both ends trimmed, or "No explanation" when nothing is
    left (or the response carries no text), with no toast.  When [fetch] or
    [res.json()] rejects, or reading the text throws, the generic failure
    toast is shown and the explanation stays empty.  The loading flag is
    cleared in every case. *)
Theorem viewWithLLM_with_key entry s :
  Js.truthy (openAIApiKey s) = true ->
  (forall text,
      explanationOf (completion text)
      = inr (Js.or_else (Js.trim text) "No explanation"))
  /\ (forall data,
        match explanationOf data with
        | inr text =>
            llmExplanation (viewWithLLM entry (Parsed data) s) = text
            /\ explanationPane (viewWithLLM entry (Parsed data) s) = text
            /\ toasts (viewWithLLM entry (Parsed data) s) = toasts s
        | inl _ =>
            llmExplanation (viewWithLLM entry (Parsed data) s) = ""
            /\ explanationPane (viewWithLLM entry (Parsed data) s) = ""
            /\ toasts (viewWithLLM entry (Parsed data) s)
               = toasts s ++ [explanationFailedToast]
        end
        /\ llmLoading (viewWithLLM entry (Parsed data) s) = false)
  /\ (forall e,
        llmExplanation (viewWithLLM entry (FetchRejected e) s) = ""
        /\ explanationPane (viewWithLLM entry (FetchRejected e) s) = ""
        /\ toasts (viewWithLLM entry (FetchRejected e) s)
           = toasts s ++ [explanationFailedToast]
        /\ llmLoading (viewWithLLM entry (FetchRejected e) s) = false)
  /\ (forall e,
        llmExplanation (viewWithLLM entry (JsonRejected e) s) = ""
        /\ explanationPane (viewWithLLM entry (JsonRejected e) s) = ""
        /\ toasts (viewWithLLM entry (JsonRejected e) s)
           = toasts s ++ [explanationFailedToast]
        /\ llmLoading (viewWithLLM entry (JsonRejected e) s) = false).
Proof.
  intros Hkey. split; [intros; apply explanationOf_completion |].
  unfold viewWithLLM, viewWithLLMSettle. cbn [openAIApiKey setSelectedLog].
  rewrite Hkey. cbn [negb].
  split; [| split; intros e; repeat split].
  intros data. destruct (explanationOf data); repeat split.
Qed.

Lemma viewWithLLM_with_key_witness :
  llmExplanation
    (viewWithLLM shownRow (Parsed (completion "  The disk is full. ")) pageWithKey)
  = "The disk is full."
  /\ llmExplanation
       (viewWithLLM shownRow (FetchRejected Js.OtherValue) pageWithKey) = "".
Proof.
  destruct (viewWithLLM_with_key shownRow pageWithKey eq_refl)
    as (_ & Hparsed & Hfetch & _).
  split.
  - exact (proj1 (proj1 (Hparsed (completion "  The disk is full. ")))).
  - exact (proj1 (Hfetch Js.OtherValue)).
Defined.

(** *** Properties of the URL parameters *)

Lemma get_set_same name value ps : Js.get name (Js.set name value ps) = Some value.
Proof.
  induction ps as [| [k v] rest IH]; cbn [Js.set Js.get].
  - now rewrite String.eqb_refl.
  - destruct (String.eqb k name) eqn:E; cbn [Js.get]; now rewrite E.
Qed.

Lemma get_filter_other name other ps :
  name <> other ->
  Js.get name (List.filter (fun p => negb (String.eqb (fst p) other)) ps)
  = Js.get name ps.
Proof.
  intros Hne. induction ps as [| [k v] rest IH]; [reflexivity |].
  cbn [List.filter fst Js.get].
  destruct (String.eqb k other) eqn:Eo; cbn [negb Js.get].
  - apply String.eqb_eq in Eo. subst k.
    destruct (String.eqb other name) eqn:En; [| exact IH].
    apply String.eqb_eq in En. congruence.
  - now rewrite IH.
Qed.

Lemma get_set_other name other value ps :
  name <> other -> Js.get name (Js.set other value ps) = Js.get name ps.
Proof.
  intros Hne. induction ps as [| [k v] rest IH]; cbn [Js.set Js.get].
  - destruct (String.eqb other name) eqn:E; [| reflexivity].
    apply String.eqb_eq in E. congruence.
  - destruct (String.eqb k other) eqn:Eo; cbn [Js.get].
    + apply String.eqb_eq in Eo. subst k.
      destruct (String.eqb other name) eqn:En.
      * apply String.eqb_eq in En. congruence.
      * now apply get_filter_other.
    + now rewrite IH.
Qed.

Lemma or_else_truthy a b : a <> "" -> Js.or_else a b = a.
Proof. destruct a; [congruence | reflexivity]. Qed.

(** The parameters written by the page read back as written. *)
Lemma updateUrl_params tz s ps :
  Js.get "date" (updateUrl tz s ps) = Some (formattedDate tz s)
  /\ Js.get "service" (updateUrl tz s ps) = Some (selectedService s).
Proof.
  unfold updateUrl. split.
  - rewrite get_set_other by discriminate. apply get_set_same.
  - apply get_set_same.
Qed.

(** X7: for a date in the years 1 to 9999 of the local calendar, a service
    name that is not empty, and a browser that, at midnight UTC of the local
    day shown, is at UTC or ahead of it by less than a day: the date and the
    service of the page survive the trip through the URL.  The date comes
    back as midnight UTC of the local day shown, which is still that local
    day, and the service comes back as it is. *)
Lemma url_round_trip_not_behind_utc tz now s ps :
  let c := JsDate.localCivil tz (date s) in
  let t' := JsDate.daysFromCivil (JsDate.year c) (JsDate.month c) (JsDate.day c)
            * JsDate.msPerDay in
  1 <= JsDate.year c <= 9999 ->
  0 <= tz t' < JsDate.msPerDay ->
  selectedService s <> "" ->
  initialDate now (updateUrl tz s ps) = Some t'
  /\ JsDate.localCivil tz t' = c
  /\ serviceParam (updateUrl tz s ps) = selectedService s.
Proof.
  intros c t' Hyear Htz Hname.
  destruct (updateUrl_params tz s ps) as [Hdate Hservice].
  destruct (JsDateFacts.civilFromDays_spec ((date s + tz (date s)) / JsDate.msPerDay))
    as [Hdays Hvalid].
  fold (JsDate.localCivil tz (date s)) in Hdays, Hvalid. fold c in Hdays, Hvalid.
  pose proof (JsDateFacts.parse_format c Hyear Hvalid) as Hparse.
  assert (Hfmt : formattedDate tz s = JsDate.format_yyyy_MM_dd c) by reflexivity.
  repeat split.
  - unfold initialDate, dateParam. rewrite Hdate, Hfmt.
    destruct (JsDate.format_yyyy_MM_dd c) as [| a rest] eqn:Ef;
      [discriminate Hparse |].
    cbn [Js.or_else Js.truthy].
    destruct (String.eqb (String a rest) "today") eqn:Et; [| exact Hparse].
    apply String.eqb_eq in Et. rewrite Et in Hparse. discriminate Hparse.
  - unfold t' in *. rewrite Hdays in *.
    rewrite JsDateFacts.localCivil_of_midnight by exact Htz. reflexivity.
  - unfold serviceParam. rewrite Hservice. now apply or_else_truthy.
Qed.

(** One hour ahead of UTC, the page of the example reads its own URL back
    to the day it shows. *)
Example url_round_trip_utc_plus_1 :
  initialDate 0 (updateUrl (fun _ => 3600000) pageWithRows [])
  = Some 1710460800000
  /\ JsDate.localCivil (fun _ => 3600000) 1710460800000
     = JsDate.localCivil (fun _ => 3600000) (date pageWithRows)
  /\ serviceParam (updateUrl (fun _ => 3600000) pageWithRows []) = "Database".
Proof.
  apply (url_round_trip_not_behind_utc (fun _ => 3600000) 0 pageWithRows []).
  - vm_compute. split; discriminate.
  - vm_compute. split; [discriminate | reflexivity].
  - discriminate.
Defined.

(** C4 (the code at the failing input): in a browser five hours behind
    UTC, the page showing 15 March 2024 writes [date=2024-03-15] to the
    URL, and a reload reads it back as midnight UTC, which is the evening of
    14 March there: the page then shows, and writes back, [2024-03-14]. *)
Theorem url_date_shifts_behind_utc :
  formattedDate utcMinus5 pageWithRows = "2024-03-15"
  /\ updateUrl utcMinus5 pageWithRows []
     = [("date", "2024-03-15"); ("service", "Database")]
  /\ initialDate 0 (updateUrl utcMinus5 pageWithRows []) = Some 1710460800000
  /\ JsDate.localCivil utcMinus5 1710460800000 = JsDate.mkCivil 2024 3 14
  /\ JsDate.localCivil utcMinus5 (date pageWithRows) = JsDate.mkCivil 2024 3 15
  /\ JsDate.formatLocal utcMinus5 1710460800000 = "2024-03-14"
  /\ serviceParam (updateUrl utcMinus5 pageWithRows []) = "Database".
Proof. vm_compute. repeat split. Qed.

End LogViewerFacts.

(** ** The log table *)

Module LogTableFacts.

Import LogTable.

(** *** Properties of the stable sort *)

Section StableSort.

Context {A : Type}.

Lemma stableSort_ext (le le' : A -> A -> bool) l :
  (forall a b, le a b = le' a b) -> stableSort le l = stableSort le' l.
Proof.
  intros Hext. induction l as [| x l IH]; [reflexivity |].
  cbn [stableSort fold_right]. fold (stableSort le l) (stableSort le' l).
  rewrite IH. generalize (stableSort le' l). intros s.
  induction s as [| y s IHs]; [reflexivity |].
  cbn [insertSorted]. now rewrite Hext, IHs.
Qed.

Lemma insertSorted_Permutation (le : A -> A -> bool) x l :
  Permutation (insertSorted le x l) (x :: l).
Proof.
  induction l as [| y l IH]; [reflexivity |].
  cbn [insertSorted]. destruct (le x y); [reflexivity |].
  rewrite IH. apply perm_swap.
Qed.

(** Sorting loses no row and adds none. *)
Lemma stableSort_Permutation (le : A -> A -> bool) l :
  Permutation (stableSort le l) l.
Proof.
  induction l as [| x l IH]; [reflexivity |].
  cbn [stableSort fold_right]. fold (stableSort le l).
  rewrite insertSorted_Permutation. now rewrite IH.
Qed.

Lemma insertSorted_last (le : A -> A -> bool) x l :
  Forall (fun y => le x y = false) l -> insertSorted le x l = l ++ [x].
Proof.
  induction 1 as [| y l Hy _ IH]; [reflexivity |].
  cbn [insertSorted]. rewrite Hy, IH. reflexivity.
Qed.

Lemma insertSorted_snoc (le : A -> A -> bool) x y l :
  le x y = true -> insertSorted le x (l ++ [y]) = insertSorted le x l ++ [y].
Proof.
  intros Hxy. induction l as [| z l IH]; cbn [insertSorted app].
  - now rewrite Hxy.
  - destruct (le x z); [reflexivity |]. now rewrite IH.
Qed.

(** Stability: among rows that the order does not tell apart, the order of
    the input is kept. *)
Lemma filter_insertSorted (P : A -> bool) (le : A -> A -> bool) x l :
  (forall y, P x = true -> P y = true -> le x y = true) ->
  List.filter P (insertSorted le x l) = List.filter P (x :: l).
Proof.
  intros Htie. induction l as [| y l IH]; [reflexivity |].
  cbn [insertSorted]. destruct (le x y) eqn:Hle; [reflexivity |].
  cbn [List.filter] in *. rewrite IH.
  destruct (P x) eqn:Px; [| reflexivity].
  destruct (P y) eqn:Py; [| reflexivity].
  rewrite (Htie y eq_refl Py) in Hle. discriminate.
Qed.

Lemma filter_stableSort (P : A -> bool) (le : A -> A -> bool) l :
  (forall a b, P a = true -> P b = true -> le a b = true) ->
  List.filter P (stableSort le l) = List.filter P l.
Proof.
  intros Htie. induction l as [| x l IH]; [reflexivity |].
  cbn [stableSort fold_right]. fold (stableSort le l).
  rewrite filter_insertSorted by (intros y; apply Htie).
  cbn [List.filter]. now rewrite IH.
Qed.

(** A comparison that is a strict order on the rows it tells apart. *)
Variable cmp : A -> A -> comparison.
Hypothesis cmp_antisym : forall a b, cmp a b = CompOpp (cmp b a).
Hypothesis cmp_trans : forall a b c, cmp a b = Lt -> cmp b c = Lt -> cmp a c = Lt.

Lemma insertSorted_ascending_sorted x s :
  StronglySorted (fun a b => cmp a b = Lt) s ->
  Forall (fun y => cmp x y <> Eq) s ->
  StronglySorted (fun a b => cmp a b = Lt) (insertSorted (ascending cmp) x s).
Proof.
  induction 1 as [| y s Hs IH Hy]; intros Hx.
  - repeat constructor.
  - apply Forall_cons_1 in Hx as [Hxy Hxs].
    cbn [insertSorted]. unfold ascending at 1.
    destruct (cmp x y) eqn:Exy; [congruence | |].
    + constructor; [now constructor |].
      constructor; [exact Exy |].
      eapply Forall_impl; [exact Hy |]. intros z Hz. now apply (cmp_trans x y z).
    + constructor; [now apply IH |].
      rewrite insertSorted_Permutation. constructor; [| exact Hy].
      rewrite cmp_antisym, Exy. reflexivity.
Qed.

Lemma stableSort_ascending_sorted l :
  noTies cmp l ->
  StronglySorted (fun a b => cmp a b = Lt) (stableSort (ascending cmp) l).
Proof.
  induction l as [| x l IH]; intros Hl; [constructor |].
  destruct Hl as [Hx Hl]. cbn [stableSort fold_right]. fold (stableSort (ascending cmp) l).
  apply insertSorted_ascending_sorted; [now apply IH |].
  now rewrite stableSort_Permutation.
Qed.

Lemma insertSorted_descending_rev x s :
  StronglySorted (fun a b => cmp a b = Lt) s ->
  Forall (fun y => cmp x y <> Eq) s ->
  insertSorted (descending cmp) x (rev s) = rev (insertSorted (ascending cmp) x s).
Proof.
  induction 1 as [| y s Hs IH Hy]; intros Hx; [reflexivity |].
  apply Forall_cons_1 in Hx as [Hxy Hxs].
  cbn [insertSorted rev]. unfold ascending at 1.
  destruct (cmp x y) eqn:Exy; [congruence | |].
  - cbn [rev]. apply insertSorted_last.
    apply Forall_app. split.
    + apply Forall_rev. eapply Forall_impl; [exact Hy |].
      intros z Hz. unfold descending. now rewrite (cmp_trans x y z).
    + repeat constructor. unfold descending. now rewrite Exy.
  - cbn [rev]. rewrite <- IH by exact Hxs.
    apply insertSorted_snoc. unfold descending. now rewrite Exy.
Qed.

(** With no ties, the descending order is the ascending order reversed. *)
Lemma stableSort_descending_rev l :
  noTies cmp l -> stableSort (descending cmp) l = rev (stableSort (ascending cmp) l).
Proof.
  induction l as [| x l IH]; intros Hl; [reflexivity |].
  destruct Hl as [Hx Hl]. cbn [stableSort fold_right].
  fold (stableSort (ascending cmp) l) (stableSort (descending cmp) l).
  rewrite IH by exact Hl.
  apply insertSorted_descending_rev.
  - now apply stableSort_ascending_sorted.
  - now rewrite stableSort_Permutation.
Qed.

End StableSort.

(** *** A stable sort is determined by its order *)

Section SortedByKey.

Context {A K : Type} `{EqDecision K}.

Variable key : A -> K.
Variable cmpK : K -> K -> comparison.
Hypothesis cmpK_eq : forall a b, cmpK a b = Eq <-> a = b.
Hypothesis cmpK_antisym : forall a b, cmpK a b = CompOpp (cmpK b a).
Hypothesis cmpK_trans :
  forall a b c, cmpK a b = Lt -> cmpK b c = Lt -> cmpK a c = Lt.

Lemma cmpK_le_trans a b c :
  cmpK a b <> Gt -> cmpK b c <> Gt -> cmpK a c <> Gt.
Proof.
  intros Hab Hbc.
  destruct (cmpK a b) eqn:Eab; [| | congruence].
  - apply cmpK_eq in Eab. now subst b.
  - destruct (cmpK b c) eqn:Ebc; [| | congruence].
    + apply cmpK_eq in Ebc. subst c. now rewrite Eab.
    + now rewrite (cmpK_trans a b c Eab Ebc).
Qed.

Lemma insertSorted_sorted x s :
  StronglySorted (fun a b => cmpK (key a) (key b) <> Gt) s ->
  StronglySorted (fun a b => cmpK (key a) (key b) <> Gt)
    (insertSorted (ascending (fun a b => cmpK (key a) (key b))) x s).
Proof.
  induction 1 as [| y s Hs IH Hy]; [repeat constructor |].
  cbn [insertSorted]. unfold ascending at 1.
  destruct (cmpK (key x) (key y)) eqn:Exy.
  - constructor; [now constructor |].
    constructor; [congruence |].
    eapply Forall_impl; [exact Hy |]. intros z Hz.
    apply (cmpK_le_trans _ (key y)); [congruence | exact Hz].
  - constructor; [now constructor |].
    constructor; [congruence |].
    eapply Forall_impl; [exact Hy |]. intros z Hz.
    apply (cmpK_le_trans _ (key y)); [congruence | exact Hz].
  - constructor; [exact IH |].
    rewrite insertSorted_Permutation. constructor; [| exact Hy].
    rewrite cmpK_antisym, Exy. discriminate.
Qed.

(** The ascending sort puts the keys in order. *)
Lemma stableSort_sorted l :
  StronglySorted (fun a b => cmpK (key a) (key b) <> Gt)
    (stableSort (ascending (fun a b => cmpK (key a) (key b))) l).
Proof.
  induction l as [| x l IH]; [constructor |].
  cbn [stableSort fold_right]. now apply insertSorted_sorted.
Qed.

(** Two lists with their keys in order that hold, for every key, the same
    entries in the same order are one list. *)
Lemma sorted_unique l1 : forall l2,
  StronglySorted (fun a b => cmpK (key a) (key b) <> Gt) l1 ->
  StronglySorted (fun a b => cmpK (key a) (key b) <> Gt) l2 ->
  (forall v, List.filter (fun a => bool_decide (key a = v)) l1
             = List.filter (fun a => bool_decide (key a = v)) l2) ->
  l1 = l2.
Proof.
  induction l1 as [| x l1 IH]; intros [| y l2] H1 H2 Hsame.
  - reflexivity.
  - specialize (Hsame (key y)). cbn [List.filter] in Hsame.
    rewrite bool_decide_eq_true_2 in Hsame by reflexivity. discriminate.
  - specialize (Hsame (key x)). cbn [List.filter] in Hsame.
    rewrite bool_decide_eq_true_2 in Hsame by reflexivity. discriminate.
  - apply StronglySorted_inv in H1 as [H1 Hx], H2 as [H2 Hy].
    assert (Hxy : x = y).
    { pose proof (Hsame (key x)) as Sx. pose proof (Hsame (key y)) as Sy.
      cbn [List.filter] in Sx, Sy.
      rewrite bool_decide_eq_true_2 in Sx by reflexivity.
      rewrite (bool_decide_eq_true_2 (key y = key y)) in Sy by reflexivity.
      destruct (decide (key y = key x)) as [Heq | Hne].
      - rewrite bool_decide_eq_true_2 in Sx by exact Heq. congruence.
      - exfalso.
        rewrite bool_decide_eq_false_2 in Sx by exact Hne.
        rewrite bool_decide_eq_false_2 in Sy by congruence.
        assert (Hx2 : In x l2).
        { eapply (proj1 (List.filter_In _ x l2)). rewrite <- Sx. now left. }
        assert (Hy1 : In y l1).
        { eapply (proj1 (List.filter_In _ y l1)). rewrite Sy. now left. }
        pose proof (proj1 (List.Forall_forall _ _) Hx y Hy1) as Lxy.
        pose proof (proj1 (List.Forall_forall _ _) Hy x Hx2) as Lyx.
        cbn beta in Lxy, Lyx.
        rewrite cmpK_antisym in Lyx.
        destruct (cmpK (key x) (key y)) eqn:E; cbn [CompOpp] in Lyx;
          try congruence.
        apply cmpK_eq in E. congruence. }
    subst y. f_equal. apply IH; [exact H1 | exact H2 |].
    intros v. specialize (Hsame v). cbn [List.filter] in Hsame.
    destruct (bool_decide (key x = v)); congruence.
Qed.

End SortedByKey.

Lemma StronglySorted_app {A : Type} (R : A -> A -> Prop) l1 l2 :
  StronglySorted R l1 -> StronglySorted R l2 ->
  (forall a b, In a l1 -> In b l2 -> R a b) ->
  StronglySorted R (l1 ++ l2).
Proof.
  induction 1 as [| x l1 H1 IH Hx]; intros H2 Hcross; [exact H2 |].
  cbn [app]. constructor.
  - apply IH; [exact H2 |]. intros a b Ha Hb. apply Hcross; [now right | exact Hb].
  - apply Forall_app. split; [exact Hx |].
    apply List.Forall_forall. intros b Hb. apply Hcross; [now left | exact Hb].
Qed.

Lemma StronglySorted_rev {A : Type} (R : A -> A -> Prop) l :
  StronglySorted R l -> StronglySorted (fun a b => R b a) (rev l).
Proof.
  induction 1 as [| x l Hl IH Hx]; [constructor |].
  cbn [rev]. apply StronglySorted_app; [exact IH | repeat constructor |].
  intros a b Ha [<- | []]. apply in_rev in Ha.
  exact (proj1 (List.Forall_forall _ _) Hx a Ha).
Qed.

Lemma StronglySorted_map {A K : Type} (key : A -> K) (R : K -> K -> Prop) l :
  StronglySorted (fun a b => R (key a) (key b)) l ->
  StronglySorted R (map key l).
Proof.
  induction 1 as [| x l Hl IH Hx]; [constructor |].
  cbn [map]. constructor; [exact IH |].
  apply List.Forall_forall. intros k Hk.
  apply in_map_iff in Hk as (a & <- & Ha).
  exact (proj1 (List.Forall_forall _ _) Hx a Ha).
Qed.

Lemma filter_map_key {A K : Type} `{EqDecision K} (key : A -> K) v l :
  List.filter (fun k => bool_decide (k = v)) (map key l)
  = map key (List.filter (fun a => bool_decide (key a = v)) l).
Proof.
  induction l as [| x l IH]; [reflexivity |].
  cbn [map List.filter]. rewrite IH.
  now destruct (bool_decide (key x = v)).
Qed.

Lemma rev_constant {K : Type} (v : K) m :
  Forall (fun k => k = v) m -> rev m = m.
Proof.
  intros Hm.
  assert (Hsnoc : forall m, Forall (fun k => k = v) m -> m ++ [v] = v :: m).
  { induction 1 as [| k m' -> _ IH]; [reflexivity |].
    cbn [app]. now rewrite IH. }
  induction Hm as [| k m -> Hm IH]; [reflexivity |].
  cbn [rev]. rewrite IH. now apply Hsnoc.
Qed.

Section Descending.

Context {A K : Type} `{EqDecision K}.

Variable key : A -> K.
Variable cmpK : K -> K -> comparison.
Hypothesis cmpK_eq : forall a b, cmpK a b = Eq <-> a = b.
Hypothesis cmpK_antisym : forall a b, cmpK a b = CompOpp (cmpK b a).
Hypothesis cmpK_trans :
  forall a b c, cmpK a b = Lt -> cmpK b c = Lt -> cmpK a c = Lt.

(** The opposite order is an order of the same kind. *)
Lemma opp_eq a b : cmpK b a = Eq <-> a = b.
Proof. rewrite cmpK_eq. split; congruence. Qed.

Lemma opp_antisym a b : cmpK b a = CompOpp (cmpK a b).
Proof. apply cmpK_antisym. Qed.

Lemma opp_trans a b c : cmpK b a = Lt -> cmpK c b = Lt -> cmpK c a = Lt.
Proof. intros Hab Hbc. now apply (cmpK_trans c b a). Qed.

Lemma descending_opp a b :
  descending (fun a b => cmpK (key a) (key b)) a b
  = ascending (fun a b => cmpK (key b) (key a)) a b.
Proof.
  unfold descending, ascending.
  rewrite (cmpK_antisym (key b) (key a)).
  now destruct (cmpK (key a) (key b)).
Qed.

Lemma stableSort_descending_sorted l :
  StronglySorted (fun a b => cmpK (key b) (key a) <> Gt)
    (stableSort (descending (fun a b => cmpK (key a) (key b))) l).
Proof.
  rewrite (stableSort_ext _ _ l descending_opp).
  apply (stableSort_sorted key (fun a b => cmpK b a)
           opp_eq opp_antisym opp_trans).
Qed.

Lemma cmp_tie a b v : key a = v -> key b = v -> cmpK (key a) (key b) = Eq.
Proof. intros <- Hb. apply cmpK_eq. now symmetry. Qed.

(** Stability, in either direction. *)
Lemma filter_stableSort_ascending v l :
  List.filter (fun a => bool_decide (key a = v))
    (stableSort (ascending (fun a b => cmpK (key a) (key b))) l)
  = List.filter (fun a => bool_decide (key a = v)) l.
Proof.
  apply filter_stableSort. intros a b Ha Hb.
  apply bool_decide_eq_true_1 in Ha, Hb.
  unfold ascending. now rewrite (cmp_tie a b v Ha Hb).
Qed.

Lemma filter_stableSort_descending v l :
  List.filter (fun a => bool_decide (key a = v))
    (stableSort (descending (fun a b => cmpK (key a) (key b))) l)
  = List.filter (fun a => bool_decide (key a = v)) l.
Proof.
  apply filter_stableSort. intros a b Ha Hb.
  apply bool_decide_eq_true_1 in Ha, Hb.
  unfold descending. now rewrite (cmp_tie a b v Ha Hb).
Qed.

(** The descending sort is the ascending sort of the reversed list, read
    backwards. *)
Lemma stableSort_descending_rev_rev l :
  stableSort (descending (fun a b => cmpK (key a) (key b))) l
  = rev (stableSort (ascending (fun a b => cmpK (key a) (key b))) (rev l)).
Proof.
  apply (sorted_unique key (fun a b => cmpK b a) opp_eq opp_antisym).
  - apply stableSort_descending_sorted.
  - apply (StronglySorted_rev (fun a b => cmpK (key a) (key b) <> Gt)).
    apply (stableSort_sorted key cmpK cmpK_eq cmpK_antisym cmpK_trans).
  - intros v. rewrite filter_stableSort_descending, List.filter_rev.
    rewrite filter_stableSort_ascending, List.filter_rev.
    now rewrite rev_involutive.
Qed.

(** It is the ascending sort read backwards exactly when the entries of
    each key read the same in both directions. *)
Lemma stableSort_descending_rev_iff l :
  stableSort (descending (fun a b => cmpK (key a) (key b))) l
  = rev (stableSort (ascending (fun a b => cmpK (key a) (key b))) l)
  <-> forall v, List.filter (fun a => bool_decide (key a = v)) l
                = rev (List.filter (fun a => bool_decide (key a = v)) l).
Proof.
  split.
  - intros Heq v.
    rewrite <- (filter_stableSort_descending v l) at 1.
    rewrite Heq, List.filter_rev. now rewrite filter_stableSort_ascending.
  - intros Hpal.
    apply (sorted_unique key (fun a b => cmpK b a) opp_eq opp_antisym).
    + apply stableSort_descending_sorted.
    + apply (StronglySorted_rev (fun a b => cmpK (key a) (key b) <> Gt)).
      apply (stableSort_sorted key cmpK cmpK_eq cmpK_antisym cmpK_trans).
    + intros v. rewrite filter_stableSort_descending, List.filter_rev.
      rewrite filter_stableSort_ascending. apply Hpal.
Qed.

(** The keys of the descending sort are the keys of the ascending sort
    read backwards. *)
Lemma map_key_stableSort_descending l :
  map key (stableSort (descending (fun a b => cmpK (key a) (key b))) l)
  = rev (map key (stableSort (ascending (fun a b => cmpK (key a) (key b))) l)).
Proof.
  rewrite stableSort_descending_rev_rev, map_rev. f_equal.
  apply (sorted_unique (fun k : K => k) cmpK cmpK_eq cmpK_antisym).
  - apply StronglySorted_map.
    apply (stableSort_sorted key cmpK cmpK_eq cmpK_antisym cmpK_trans).
  - apply StronglySorted_map.
    apply (stableSort_sorted key cmpK cmpK_eq cmpK_antisym cmpK_trans).
  - intros v. rewrite !filter_map_key, !filter_stableSort_ascending.
    rewrite List.filter_rev, map_rev. apply rev_constant with (v := v).
    apply List.Forall_forall. intros k Hk.
    apply in_map_iff in Hk as (a & <- & Ha).
    apply List.filter_In in Ha as [_ Ha].
    now apply bool_decide_eq_true_1 in Ha.
Qed.

End Descending.

(** *** Properties of the sorted rows *)

Lemma compare_refl (x : string) : String.compare x x = Eq.
Proof.
  induction x as [| c x IH]; [reflexivity |].
  cbn [String.compare]. unfold Ascii.compare. now rewrite N.compare_refl.
Qed.

Lemma compareBasic_eq a b : compareBasic a b = Eq <-> a = b.
Proof.
  destruct a as [x |], b as [y |]; cbn [compareBasic]; split;
    try discriminate; try reflexivity.
  - intros H. f_equal. now apply String.compare_eq_iff.
  - intros [= ->]. apply compare_refl.
Qed.

Lemma compareBasic_antisym a b : compareBasic a b = CompOpp (compareBasic b a).
Proof.
  destruct a as [x |], b as [y |]; cbn [compareBasic CompOpp];
    try reflexivity.
  apply String.compare_antisym.
Qed.

Lemma compareBasic_trans a b c :
  compareBasic a b = Lt -> compareBasic b c = Lt -> compareBasic a c = Lt.
Proof.
  destruct a as [x |], b as [y |], c as [z |]; cbn [compareBasic];
    try discriminate; try reflexivity.
  intros Hxy Hyz.
  apply String_as_OT.cmp_lt. apply String_as_OT.cmp_lt in Hxy, Hyz.
  now apply (String_as_OT.lt_trans x y z).
Qed.

Lemma notAfter_ascending col a b :
  notAfter [mkColumnSort col false] a b = ascending (sortingFn col) a b.
Proof.
  unfold notAfter, ascending. cbn [compareRows sortId desc].
  now destruct (sortingFn col a b).
Qed.

Lemma notAfter_descending col a b :
  notAfter [mkColumnSort col true] a b = descending (sortingFn col) a b.
Proof.
  unfold notAfter, descending. cbn [compareRows sortId desc].
  now destruct (sortingFn col a b).
Qed.

Lemma noTies_of_NoDup col rows :
  NoDup (map (getValue col) rows) -> noTies (sortingFn col) rows.
Proof.
  induction rows as [| r rows IH]; [constructor |].
  cbn [map]. intros Hnd. apply NoDup_cons in Hnd as [Hr Hnd].
  cbn [noTies]. split; [| now apply IH].
  apply Forall_forall. intros r' Hin Htie.
  apply compareBasic_eq in Htie. apply Hr. rewrite Htie.
  now apply list_elem_of_fmap_2.
Qed.

(** A click on the header of the column that is sorted ascending makes it
    the descending sort key. *)
Lemma clickHeader_ascending col :
  clickHeader col [mkColumnSort col false] = [mkColumnSort col true].
Proof.
  unfold clickHeader, getIsSorted. cbn [List.find sortId desc].
  now rewrite bool_decide_eq_true_2.
Qed.

Lemma clickHeader_unsorted col :
  clickHeader col [] = [mkColumnSort col false].
Proof. reflexivity. Qed.

(** The sorted row model is stable in both directions: the rows that hold
    the same value in the sort column stay in the order of the input. *)
Lemma getSortedRowModel_stable col descending value rows :
  List.filter (fun r => bool_decide (getValue col r = value))
    (getSortedRowModel [mkColumnSort col descending] rows)
  = List.filter (fun r => bool_decide (getValue col r = value)) rows.
Proof.
  apply filter_stableSort. intros a b Ha Hb.
  apply bool_decide_eq_true_1 in Ha, Hb.
  unfold notAfter. cbn [compareRows sortId desc]. unfold sortingFn.
  rewrite Ha, Hb. now rewrite (proj2 (compareBasic_eq value value) eq_refl).
Qed.

Lemma getSortedRowModel_Permutation sorting rows :
  Permutation (getSortedRowModel sorting rows) rows.
Proof. apply stableSort_Permutation. Qed.

(** C5 (as stated, refuted): two rows of level INFO keep their order when
    the level column goes from ascending to descending, so the descending
    rows are not the ascending rows reversed. *)
Lemma sort_descending_keeps_ties :
  getSortedRowModel (clickHeader ColLevel [mkColumnSort ColLevel false])
    [row1; row2; row3]
  <> rev (getSortedRowModel [mkColumnSort ColLevel false] [row1; row2; row3]).
Proof. vm_compute. discriminate. Qed.

(** When the rows hold pairwise distinct values in a column, the descending
    rows are the ascending rows in reverse. *)
Lemma sort_descending_reverses_distinct col rows :
  NoDup (map (getValue col) rows) ->
  getSortedRowModel (clickHeader col [mkColumnSort col false]) rows
  = rev (getSortedRowModel [mkColumnSort col false] rows).
Proof.
  intros Hnd. rewrite clickHeader_ascending. unfold getSortedRowModel.
  rewrite (stableSort_ext _ _ rows (notAfter_descending col)).
  rewrite (stableSort_ext _ _ rows (notAfter_ascending col)).
  apply stableSort_descending_rev.
  - intros a b. apply compareBasic_antisym.
  - intros a b c. apply compareBasic_trans.
  - now apply noTies_of_NoDup.
Qed.

Lemma getSortedRowModel_ascending col rows :
  getSortedRowModel [mkColumnSort col false] rows
  = stableSort
      (ascending (fun a b => compareBasic (getValue col a) (getValue col b)))
      rows.
Proof.
  unfold getSortedRowModel.
  apply (stableSort_ext _ _ rows (notAfter_ascending col)).
Qed.

Lemma getSortedRowModel_descending col rows :
  getSortedRowModel (clickHeader col [mkColumnSort col false]) rows
  = stableSort
      (descending (fun a b => compareBasic (getValue col a) (getValue col b)))
      rows.
Proof.
  rewrite clickHeader_ascending. unfold getSortedRowModel.
  apply (stableSort_ext _ _ rows (notAfter_descending col)).
Qed.

(** C5 (amended): sorting by a column ascending and then clicking its
    header again, which makes the sort descending, puts the values of the
    column in exactly the reverse of their ascending order, and the sort is
    stable in both directions: rows that hold the same value stay in the
    order of the input.  The descending rows are therefore the ascending
    sort of the reversed list read backwards; they are the ascending rows
    read backwards exactly when the rows of each value read the same in both
    directions, as they do when no two rows tie. *)
Theorem sort_descending_reverses_ascending col rows :
  map (getValue col)
    (getSortedRowModel (clickHeader col [mkColumnSort col false]) rows)
  = rev (map (getValue col) (getSortedRowModel [mkColumnSort col false] rows))
  /\ (forall value,
        List.filter (fun r => bool_decide (getValue col r = value))
          (getSortedRowModel [mkColumnSort col false] rows)
        = List.filter (fun r => bool_decide (getValue col r = value)) rows
        /\ List.filter (fun r => bool_decide (getValue col r = value))
             (getSortedRowModel (clickHeader col [mkColumnSort col false]) rows)
           = List.filter (fun r => bool_decide (getValue col r = value)) rows)
  /\ getSortedRowModel (clickHeader col [mkColumnSort col false]) rows
     = rev (getSortedRowModel [mkColumnSort col false] (rev rows))
  /\ (getSortedRowModel (clickHeader col [mkColumnSort col false]) rows
      = rev (getSortedRowModel [mkColumnSort col false] rows)
      <-> forall value,
            List.filter (fun r => bool_decide (getValue col r = value)) rows
            = rev (List.filter (fun r => bool_decide (getValue col r = value))
                     rows))
  /\ StronglySorted
       (fun a b => compareBasic (getValue col a) (getValue col b) <> Gt)
       (getSortedRowModel [mkColumnSort col false] rows)
  /\ Permutation (getSortedRowModel [mkColumnSort col false] rows) rows.
Proof.
  rewrite getSortedRowModel_descending, !getSortedRowModel_ascending.
  split; [| split; [| split; [| split; [| split]]]].
  - apply (map_key_stableSort_descending (getValue col) compareBasic
             compareBasic_eq compareBasic_antisym compareBasic_trans).
  - intros value. split.
    + apply (filter_stableSort_ascending (getValue col) compareBasic
               compareBasic_eq).
    + apply (filter_stableSort_descending (getValue col) compareBasic
               compareBasic_eq).
  - apply (stableSort_descending_rev_rev (getValue col) compareBasic
             compareBasic_eq compareBasic_antisym compareBasic_trans).
  - apply (stableSort_descending_rev_iff (getValue col) compareBasic
             compareBasic_eq compareBasic_antisym compareBasic_trans).
  - apply (stableSort_sorted (getValue col) compareBasic
             compareBasic_eq compareBasic_antisym compareBasic_trans).
  - apply stableSort_Permutation.
Qed.

(** The rows of the example, two of which hold the level INFO. *)
Lemma sort_descending_reverses_ascending_witness :
  getSortedRowModel (clickHeader ColLevel [mkColumnSort ColLevel false])
    [row1; row2; row3]
  = rev (getSortedRowModel [mkColumnSort ColLevel false] (rev [row1; row2; row3])).
Proof.
  apply (sort_descending_reverses_ascending ColLevel [row1; row2; row3]).
Defined.

(** *** Properties of the filtered rows *)

Lemma filter_filter {A : Type} (p q : A -> bool) l :
  List.filter p (List.filter q l) = List.filter (fun x => q x && p x) l.
Proof.
  induction l as [| x l IH]; [reflexivity |].
  cbn [List.filter]. destruct (q x); cbn [List.filter andb]; now rewrite IH.
Qed.

(** The spec's example: of an INFO row and an ERROR row, the global filter
    "err" keeps the ERROR row. *)
Example globalFilter_err :
  getFilteredRowModel [] "err" [row1; row2] = [row2].
Proof. reflexivity. Qed.

(** C6: a row passes the column filters and the global filter together
    exactly when it passes the column filters alone and the global filter
    alone, and applying the two filters one after the other, in either
    order, gives the rows of the filtered row model. *)
Theorem filters_compose columnFilters globalFilter rows :
  (forall row,
      In row (getFilteredRowModel columnFilters globalFilter rows)
      <-> In row (columnFiltered columnFilters rows)
          /\ In row (globallyFiltered globalFilter rows))
  /\ globallyFiltered globalFilter (columnFiltered columnFilters rows)
     = getFilteredRowModel columnFilters globalFilter rows
  /\ columnFiltered columnFilters (globallyFiltered globalFilter rows)
     = getFilteredRowModel columnFilters globalFilter rows.
Proof.
  unfold getFilteredRowModel, columnFiltered, globallyFiltered.
  split; [| split].
  - intros row. rewrite !List.filter_In, andb_true_iff. tauto.
  - apply filter_filter.
  - rewrite filter_filter. apply List.filter_ext. intros row. apply andb_comm.
Qed.

(** *** Properties of the pagination *)

Lemma ceilDiv_spec a b :
  0 < b -> b * (ceilDiv a b - 1) < a <= b * ceilDiv a b.
Proof.
  intros Hb. unfold ceilDiv.
  pose proof (Z.div_mod (- a) b ltac:(lia)) as Hdm.
  pose proof (Z.mod_pos_bound (- a) b Hb) as Hmod.
  nia.
Qed.

Lemma ceilDiv_nonneg a b : 0 <= a -> 0 < b -> 0 <= ceilDiv a b.
Proof. intros Ha Hb. pose proof (ceilDiv_spec a b Hb). nia. Qed.

Lemma ceilDiv_pos a b : 0 < a -> 0 < b -> 1 <= ceilDiv a b.
Proof. intros Ha Hb. pose proof (ceilDiv_spec a b Hb). nia. Qed.

Lemma ceilDiv_zero b : ceilDiv 0 b = 0.
Proof. unfold ceilDiv. cbn [Z.opp]. now rewrite Zdiv_0_l. Qed.

Lemma clamp_range hi i : 0 <= clamp 0 hi i <= Z.max 0 hi.
Proof. unfold clamp. lia. Qed.

Lemma setPageIndex_inRange rowCount i p : inRange rowCount (setPageIndex rowCount i p).
Proof.
  unfold inRange, setPageIndex, getPageCount. cbn [pageIndex pageSize].
  apply clamp_range.
Qed.

Lemma setPageSize_inRange rowCount n p : inRange rowCount (setPageSize rowCount n p).
Proof. apply setPageIndex_inRange. Qed.

Lemma handle_inRange_select rowCount p o :
  inRange rowCount (handle rowCount p (SelectPageSize o)).
Proof. apply setPageSize_inRange. Qed.

Lemma handle_inRange rowCount p e :
  inRange rowCount p -> inRange rowCount (handle rowCount p e).
Proof.
  intros Hp. destruct e; cbn [handle].
  - apply setPageSize_inRange.
  - destruct (getCanPreviousPage p); [apply setPageIndex_inRange | exact Hp].
  - destruct (getCanPreviousPage p); [apply setPageIndex_inRange | exact Hp].
  - destruct (getCanNextPage rowCount p); [apply setPageIndex_inRange | exact Hp].
  - destruct (getCanNextPage rowCount p); [apply setPageIndex_inRange | exact Hp].
Qed.

(** X13: on a page in range, the four buttons never reach the bounds of
    the clamp: their [disabled] conditions alone keep the index on a page.
    An enabled button moves to the first page, one page back, one page on
    or to the last page, and a disabled one leaves the page as it is. *)
Lemma click_pageIndex rowCount p :
  inRange rowCount p ->
  pageIndex (handle rowCount p ClickFirst) = 0
  /\ pageIndex (handle rowCount p ClickPrevious)
     = (if getCanPreviousPage p then pageIndex p - 1 else pageIndex p)
  /\ pageIndex (handle rowCount p ClickNext)
     = (if getCanNextPage rowCount p then pageIndex p + 1 else pageIndex p)
  /\ pageIndex (handle rowCount p ClickLast)
     = (if getCanNextPage rowCount p then getPageCount rowCount p - 1
        else pageIndex p).
Proof.
  unfold inRange, handle, previousPage, nextPage, setPageIndex, clamp,
    getCanPreviousPage, getCanNextPage.
  intros Hp. repeat split.
  - destruct (0 <? pageIndex p) eqn:E; cbn [pageIndex]; [lia |].
    apply Z.ltb_ge in E. lia.
  - destruct (0 <? pageIndex p) eqn:E; cbn [pageIndex pageSize]; [| reflexivity].
    apply Z.ltb_lt in E. lia.
  - destruct (pageIndex p <? getPageCount rowCount p - 1) eqn:E;
      cbn [pageIndex pageSize]; [| reflexivity].
    apply Z.ltb_lt in E. lia.
  - destruct (pageIndex p <? getPageCount rowCount p - 1) eqn:E;
      cbn [pageIndex pageSize]; [| reflexivity].
    apply Z.ltb_lt in E. lia.
Qed.

Lemma handleAll_inRange rowCount es : forall p,
  inRange rowCount p -> inRange rowCount (handleAll rowCount p es).
Proof.
  induction es as [| e es IH]; intros p Hp; [exact Hp |].
  cbn [handleAll fold_left]. apply IH. now apply handle_inRange.
Qed.

Lemma rowsOf_pos o : 0 < rowsOf o.
Proof. destruct o; reflexivity. Qed.

Lemma tablePageSize_rowsOf o : tablePageSize (rowsOf o) = rowsOf o.
Proof. destruct o; reflexivity. Qed.

Lemma handle_pageSize_pos rowCount p e :
  0 < pageSize p -> 0 < pageSize (handle rowCount p e).
Proof.
  intros Hp. destruct e; cbn [handle].
  - cbn [setPageSize setPageIndex pageSize].
    rewrite tablePageSize_rowsOf. apply rowsOf_pos.
  - destruct (getCanPreviousPage p); exact Hp.
  - destruct (getCanPreviousPage p); exact Hp.
  - destruct (getCanNextPage rowCount p); exact Hp.
  - destruct (getCanNextPage rowCount p); exact Hp.
Qed.

Lemma handleAll_pageSize_pos rowCount es : forall p,
  0 < pageSize p -> 0 < pageSize (handleAll rowCount p es).
Proof.
  induction es as [| e es IH]; intros p Hp; [exact Hp |].
  cbn [handleAll fold_left]. apply IH. now apply handle_pageSize_pos.
Qed.

(** There is no page exactly when there is no row. *)
Lemma getPageCount_zero (rowCount : nat) p :
  0 < pageSize p ->
  0 <= getPageCount (Z.of_nat rowCount) p
  /\ (getPageCount (Z.of_nat rowCount) p = 0 <-> rowCount = 0%nat).
Proof.
  intros Hp. unfold getPageCount.
  pose proof (ceilDiv_spec (Z.of_nat rowCount) (pageSize p) Hp) as Hc.
  split; [nia |]. split; [intros H0; rewrite H0 in Hc; lia |].
  intros ->. apply ceilDiv_zero.
Qed.

(** C8 (as stated, refuted): when no row passes the filters, the page count
    is 0 and the page index is 0, which is not in the range from 0 to
    [0 - 1]. *)
Lemma page_index_outside_empty_range :
  getPageCount 0 (handle 0 (mkPagination 0 10) (SelectPageSize Rows20)) = 0
  /\ pageIndex (handle 0 (mkPagination 0 10) (SelectPageSize Rows20)) = 0
  /\ ~ (0 <= pageIndex (handle 0 (mkPagination 0 10) (SelectPageSize Rows20))
          <= getPageCount 0 (handle 0 (mkPagination 0 10) (SelectPageSize Rows20)) - 1).
Proof. vm_compute. repeat split. intros [_ H]. now apply H. Qed.

Lemma pagination_in_range_aux (rowCount : nat) o p es :
  inRange (Z.of_nat rowCount)
    (handleAll (Z.of_nat rowCount)
       (handle (Z.of_nat rowCount) p (SelectPageSize o)) es)
  /\ 0 <= getPageCount (Z.of_nat rowCount)
            (handleAll (Z.of_nat rowCount)
               (handle (Z.of_nat rowCount) p (SelectPageSize o)) es)
  /\ (getPageCount (Z.of_nat rowCount)
        (handleAll (Z.of_nat rowCount)
           (handle (Z.of_nat rowCount) p (SelectPageSize o)) es) = 0
      <-> rowCount = 0%nat).
Proof.
  split; [apply handleAll_inRange, handle_inRange_select |].
  apply getPageCount_zero, handleAll_pageSize_pos.
  cbn [handle setPageSize setPageIndex pageSize].
  rewrite tablePageSize_rowsOf. apply rowsOf_pos.
Qed.

(** C8 (amended): after the page size is set to an option N of the selector,
    with F filtered rows, the page count is ceil(F / N), that is
    [N * (count - 1) < F <= N * count]; and from then on, through any clicks
    on first, previous, next and last and any further choice of a page size,
    the page index lies between 0 and [max 0 (count - 1)]: in the range from
    0 to [count - 1] when there is a row, and 0 when there is none, the
    page count being 0 exactly then. *)
Theorem pagination_in_range (rowCount : nat) (o : PageSizeOption)
    (p : PaginationState) (es : list PageEvent) :
  pageSize (handle (Z.of_nat rowCount) p (SelectPageSize o)) = rowsOf o
  /\ rowsOf o
       * (getPageCount (Z.of_nat rowCount)
            (handle (Z.of_nat rowCount) p (SelectPageSize o)) - 1)
     < Z.of_nat rowCount
     <= rowsOf o
        * getPageCount (Z.of_nat rowCount)
            (handle (Z.of_nat rowCount) p (SelectPageSize o))
  /\ 0 <= pageIndex
            (handleAll (Z.of_nat rowCount)
               (handle (Z.of_nat rowCount) p (SelectPageSize o)) es)
       <= Z.max 0
            (getPageCount (Z.of_nat rowCount)
               (handleAll (Z.of_nat rowCount)
                  (handle (Z.of_nat rowCount) p (SelectPageSize o)) es) - 1)
  /\ (getPageCount (Z.of_nat rowCount)
        (handleAll (Z.of_nat rowCount)
           (handle (Z.of_nat rowCount) p (SelectPageSize o)) es) = 0
      <-> rowCount = 0%nat).
Proof.
  split; [| split; [| split]].
  - cbn [handle setPageSize setPageIndex pageSize]. apply tablePageSize_rowsOf.
  - unfold getPageCount. cbn [handle setPageSize setPageIndex pageSize].
    rewrite tablePageSize_rowsOf. apply ceilDiv_spec, rowsOf_pos.
  - apply pagination_in_range_aux.
  - apply pagination_in_range_aux.
Qed.

(** With at least one row, the page index is on one of the pages. *)
Corollary pagination_in_range_nonempty (rowCount : nat) o p es :
  (0 < rowCount)%nat ->
  0 <= pageIndex
         (handleAll (Z.of_nat rowCount)
            (handle (Z.of_nat rowCount) p (SelectPageSize o)) es)
    <= getPageCount (Z.of_nat rowCount)
         (handleAll (Z.of_nat rowCount)
            (handle (Z.of_nat rowCount) p (SelectPageSize o)) es) - 1.
Proof.
  intros Hrows.
  destruct (pagination_in_range_aux rowCount o p es) as (Hrange & Hcount & Hzero).
  unfold inRange in Hrange.
  assert (getPageCount (Z.of_nat rowCount)
            (handleAll (Z.of_nat rowCount)
               (handle (Z.of_nat rowCount) p (SelectPageSize o)) es) <> 0)
    by (intros H0; apply Hzero in H0; lia).
  lia.
Qed.

End LogTableFacts.

(** ** The settings page *)

Module SettingsFacts.

Import Settings.

(** *** Properties of the time zone labels *)

Lemma TZ_RECORD_fold (l : list Tzdb.RawTimeZone) tz :
  forall m : gmap string Tzdb.RawTimeZone,
    fold_left (fun m z => <[Tzdb.name z := z]> m) l m !! tz
    = match last (List.filter (fun z => String.eqb (Tzdb.name z) tz) l) with
      | Some z => Some z
      | None => m !! tz
      end.
Proof.
  induction l as [| z l IH]; intros m; [reflexivity |].
  cbn [fold_left List.filter]. rewrite IH.
  destruct (String.eqb (Tzdb.name z) tz) eqn:E.
  - apply String.eqb_eq in E. rewrite last_cons.
    destruct (last _); [reflexivity |]. rewrite <- E. apply lookup_insert_eq.
  - apply String.eqb_neq in E.
    destruct (last _); [reflexivity |]. now apply lookup_insert_ne.
Qed.

(** The map holds, for each name, the last entry of the table with it. *)
Lemma TZ_RECORD_lookup rawTimeZones tz :
  TZ_RECORD rawTimeZones !! tz
  = last (List.filter (fun z => String.eqb (Tzdb.name z) tz) rawTimeZones).
Proof.
  unfold TZ_RECORD. rewrite TZ_RECORD_fold.
  destruct (last _); [reflexivity | apply lookup_empty].
Qed.

Lemma last_In {A : Type} (l : list A) x : last l = Some x -> In x l.
Proof.
  intros H. apply last_Some in H as [l' ->]. apply in_or_app. right. now left.
Qed.

Lemma last_None_nil {A : Type} (l : list A) : last l = None -> l = [].
Proof. destruct l as [| x l]; [reflexivity |]. rewrite last_cons. now destruct (last l). Qed.

(** The fallback label: every underscore becomes a space and nothing else
    changes. *)
Lemma replaceUnderscores_get s : forall n,
  String.get n (Js.replaceUnderscores s)
  = option_map (fun c => if Ascii.eqb c "_" then " "%char else c)
      (String.get n s).
Proof.
  induction s as [| c s IH]; intros n; [reflexivity |].
  destruct n as [| n]; [reflexivity |]. cbn [Js.replaceUnderscores String.get].
  apply IH.
Qed.

Lemma replaceUnderscores_length s :
  String.length (Js.replaceUnderscores s) = String.length s.
Proof. induction s as [| c s IH]; [reflexivity |]. cbn. now rewrite IH. Qed.

Example getTimezoneLabel_known :
  getTimezoneLabel
    [ Tzdb.mkRawTimeZone "America/New_York" "Eastern Time";
      Tzdb.mkRawTimeZone "Asia/Karachi" "Pakistan Time" ]
    "America/New_York"
  = "Eastern Time".
Proof. reflexivity. Qed.

Example getTimezoneLabel_unknown :
  getTimezoneLabel
    [ Tzdb.mkRawTimeZone "America/New_York" "Eastern Time";
      Tzdb.mkRawTimeZone "Asia/Karachi" "Pakistan Time" ]
    "America/Port_of_Spain"
  = "America/Port of Spain".
Proof. reflexivity. Qed.

(** C7: for every identifier, if the table of time zones has an entry of
    that name (the map then holds the last such entry), the label is the
    alternative name of that entry; if it has none, the label is the
    identifier with every underscore replaced by a space.  The function is
    total. *)
Theorem getTimezoneLabel_spec (rawTimeZones : list Tzdb.RawTimeZone)
    (tz : string) :
  match TZ_RECORD rawTimeZones !! tz with
  | Some z =>
      In z rawTimeZones
      /\ Tzdb.name z = tz
      /\ getTimezoneLabel rawTimeZones tz = Tzdb.alternativeName z
  | None =>
      (forall z, In z rawTimeZones -> Tzdb.name z <> tz)
      /\ getTimezoneLabel rawTimeZones tz = Js.replaceUnderscores tz
      /\ forall n,
           String.get n (getTimezoneLabel rawTimeZones tz)
           = option_map (fun c => if Ascii.eqb c "_" then " "%char else c)
               (String.get n tz)
  end.
Proof.
  unfold getTimezoneLabel. rewrite TZ_RECORD_lookup.
  destruct (last _) as [z |] eqn:Hlast.
  - apply last_In, List.filter_In in Hlast as [Hin Hname].
    apply String.eqb_eq in Hname. auto.
  - apply last_None_nil in Hlast. split; [| split].
    + intros z Hin Hname.
      assert (Hz : In z (List.filter (fun z => String.eqb (Tzdb.name z) tz)
                          rawTimeZones))
        by (apply List.filter_In; split; [exact Hin | now apply String.eqb_eq]).
      rewrite Hlast in Hz. exact Hz.
    + reflexivity.
    + apply replaceUnderscores_get.
Qed.

(** *** Properties of the service list *)

Lemma DEFAULT_SERVICES_unique : NoDup (map name DEFAULT_SERVICES).
Proof. apply (bool_decide_unpack _). vm_compute. exact I. Qed.

Lemma nameExists_false s :
  nameExists s = false -> newServiceName s ∉ serviceNames s.
Proof.
  unfold nameExists, serviceNames. intros Hex Hin.
  apply list_elem_of_fmap in Hin as (x & Hx & Hin).
  assert (existsb (fun x => String.eqb (name x) (newServiceName s)) (services s)
          = true) as Htrue.
  { apply existsb_exists. exists x. split; [now apply list_elem_of_In |].
    apply String.eqb_eq. now symmetry. }
  congruence.
Qed.

(** A name that exists, or an empty field, leaves the list as it is. *)
Lemma addService_services s :
  services (addService s)
  = if negb (Js.truthy (newServiceName s))
       || negb (Js.truthy (newServiceEndpoint s))
       || nameExists s
    then services s
    else services s ++ [mkService (newServiceName s) (newServiceEndpoint s)].
Proof.
  unfold addService.
  destruct (negb (Js.truthy (newServiceName s))
            || negb (Js.truthy (newServiceEndpoint s))); [reflexivity |].
  cbn [orb]. destruct (nameExists s); reflexivity.
Qed.

Lemma addService_rejects_existing s :
  newServiceName s ∈ serviceNames s ->
  services (addService s) = services s /\ newServiceName (addService s) = newServiceName s.
Proof.
  intros Hin. unfold addService.
  destruct (negb (Js.truthy (newServiceName s))
            || negb (Js.truthy (newServiceEndpoint s))); [now split |].
  destruct (nameExists s) eqn:Hex; [now split |].
  now apply nameExists_false in Hex.
Qed.

Lemma addService_unique s :
  NoDup (serviceNames s) -> NoDup (serviceNames (addService s)).
Proof.
  intros Hnd. unfold serviceNames at 1. rewrite addService_services.
  destruct (negb (Js.truthy (newServiceName s))
            || negb (Js.truthy (newServiceEndpoint s))); [exact Hnd |].
  cbn [orb]. destruct (nameExists s) eqn:Hex; [exact Hnd |].
  rewrite map_app. apply NoDup_app. split; [exact Hnd |]. split.
  - intros x Hx Hin. cbn [map name] in Hin.
    apply list_elem_of_singleton in Hin. subst x.
    now apply nameExists_false in Hex.
  - apply NoDup_singleton.
Qed.

Lemma removeService_unique n s :
  NoDup (serviceNames s) -> NoDup (serviceNames (removeService n s)).
Proof.
  unfold serviceNames, removeService. cbn [services toast setServices].
  induction (services s) as [| x l IH]; [trivial |].
  cbn [map List.filter]. intros Hnd. apply NoDup_cons in Hnd as [Hx Hnd].
  destruct (negb (String.eqb (name x) n)); [| now apply IH].
  cbn [map]. apply NoDup_cons. split; [| now apply IH].
  intros Hin. apply Hx.
  apply list_elem_of_fmap in Hin as (y & Hy & Hin).
  apply list_elem_of_In, List.filter_In in Hin as [Hin _].
  rewrite Hy. apply list_elem_of_fmap_2. now apply list_elem_of_In.
Qed.

(** Editing an endpoint changes no name. *)
Lemma editEndpoint_names n value s :
  serviceNames (editEndpoint n value s) = serviceNames s.
Proof.
  unfold serviceNames, editEndpoint. cbn [services setServices].
  rewrite map_map. apply map_ext. intros x.
  now destruct (String.eqb (name x) n).
Qed.

Lemma apply_unique s op :
  NoDup (serviceNames s) -> NoDup (serviceNames (apply s op)).
Proof.
  intros Hnd. destruct op; cbn [apply].
  - exact Hnd.
  - exact Hnd.
  - now apply addService_unique.
  - now apply removeService_unique.
  - now rewrite editEndpoint_names.
  - exact Hnd.
  - apply DEFAULT_SERVICES_unique.
Qed.

Lemma applyAll_unique ops : forall s,
  NoDup (serviceNames s) -> NoDup (serviceNames (applyAll s ops)).
Proof.
  induction ops as [| op ops IH]; intros s Hnd; [exact Hnd |].
  cbn [applyAll fold_left]. apply IH. now apply apply_unique.
Qed.

(** C9: the names of the default services are pairwise distinct; and from
    a list of services with pairwise distinct names, [addService],
    [removeService] and the editing of an endpoint each give a list with
    pairwise distinct names, as does any sequence of operations of the page.
    [addService] leaves the list as it is when the name exists already. *)
Theorem service_names_stay_unique (s : State) (ops : list Operation) :
  NoDup (serviceNames s) ->
  NoDup (map name DEFAULT_SERVICES)
  /\ NoDup (serviceNames (addService s))
  /\ (forall n, NoDup (serviceNames (removeService n s)))
  /\ (forall n value, NoDup (serviceNames (editEndpoint n value s)))
  /\ NoDup (serviceNames (applyAll s ops))
  /\ services (addService s)
     = if negb (Js.truthy (newServiceName s))
          || negb (Js.truthy (newServiceEndpoint s))
          || nameExists s
       then services s
       else services s ++ [mkService (newServiceName s) (newServiceEndpoint s)].
Proof.
  intros Hnd. repeat split.
  - apply DEFAULT_SERVICES_unique.
  - now apply addService_unique.
  - intros n. now apply removeService_unique.
  - intros n value. now rewrite editEndpoint_names.
  - now apply applyAll_unique.
  - apply addService_services.
Qed.

Lemma service_names_stay_unique_witness :
  NoDup
    (serviceNames
       (applyAll (initialState "Asia/Karachi")
          [ TypeServiceName "Database"; TypeServiceEndpoint "https://x.test";
            AddService; TypeServiceName "Auth"; AddService;
            EditEndpoint "Auth" "https://auth.test"; RemoveService "Web Server" ])).
Proof.
  refine (proj1 (proj2 (proj2 (proj2 (proj2
    (service_names_stay_unique (initialState "Asia/Karachi")
       [ TypeServiceName "Database"; TypeServiceEndpoint "https://x.test";
         AddService; TypeServiceName "Auth"; AddService;
         EditEndpoint "Auth" "https://auth.test"; RemoveService "Web Server" ]
       _)))))).
  apply (bool_decide_unpack _). vm_compute. exact I.
Defined.

Example addService_duplicate_rejected :
  services
    (applyAll (initialState "Asia/Karachi")
       [ TypeServiceName "Database"; TypeServiceEndpoint "https://x.test";
         AddService ])
  = DEFAULT_SERVICES.
Proof. reflexivity. Qed.

(** *** Properties of the reset *)

(** C10: [resetToDefaults] puts the services, the primary time zone, the
    page size, the line-number switch and the date and time formats back to
    their defaults, and leaves the stored OpenAI API key as it was. *)
Theorem resetToDefaults_keeps_api_key (detected : string) (s : State) :
  services (resetToDefaults detected s) = DEFAULT_SERVICES
  /\ primaryTimezone (resetToDefaults detected s) = detected
  /\ pageSize (resetToDefaults detected s) = DEFAULT_PAGE_SIZE
  /\ showLineNumbers (resetToDefaults detected s) = true
  /\ dateFormat (resetToDefaults detected s) = "yyyy-MM-dd"
  /\ timeFormat (resetToDefaults detected s) = "HH:mm:ss"
  /\ openAIApiKey (resetToDefaults detected s) = openAIApiKey s.
Proof. repeat split. Qed.

End SettingsFacts.
(** ** The service picker and the rest of the log viewer page *)

Module ServicePickerFacts.

Import LogViewer ServicePicker.

(** *** The current service *)

Lemma find_first {A : Type} (p : A -> bool) l x :
  List.find p l = Some x ->
  p x = true
  /\ exists before after,
       l = before ++ x :: after /\ forall y, In y before -> p y = false.
Proof.
  induction l as [| z l IH]; [discriminate |].
  cbn [List.find]. destruct (p z) eqn:Hz.
  - intros [= ->]. split; [exact Hz |]. exists [], l. split; [reflexivity |].
    intros y [].
  - intros Hfind. destruct (IH Hfind) as (Hx & before & after & -> & Hbefore).
    split; [exact Hx |]. exists (z :: before), after. split; [reflexivity |].
    intros y [<- | Hy]; [exact Hz | now apply Hbefore].
Qed.

(** X1: [currentService] is the first service of the list with the
    selected name, every service in front of it having another name, or,
    when no service has that name, the first service of the list.  It is
    [undefined] only for the empty list. *)
Theorem currentService_spec (services : list Settings.Service)
    (selected : string) :
  match currentService services selected with
  | Some x =>
      (Settings.name x = selected
       /\ exists before after,
            services = before ++ x :: after
            /\ forall y, In y before -> Settings.name y <> selected)
      \/ ((forall y, In y services -> Settings.name y <> selected)
          /\ head services = Some x)
  | None => services = []
  end.
Proof.
  unfold currentService.
  destruct (List.find _ services) as [x |] eqn:Hfind.
  - apply find_first in Hfind as (Hname & before & after & Hsplit & Hbefore).
    apply String.eqb_eq in Hname. left. split; [exact Hname |].
    exists before, after. split; [exact Hsplit |].
    intros y Hy. apply String.eqb_neq. now apply Hbefore.
  - destruct services as [| x rest]; [reflexivity |]. cbn [head].
    right. split; [| reflexivity].
    intros y Hy Hname.
    pose proof (List.find_none _ _ Hfind y Hy) as Hno. cbn beta in Hno.
    apply String.eqb_neq in Hno. contradiction.
Qed.

(** *** Fetching again *)

(** X2: a fetch that succeeds after one that failed leaves no trace of the
    failure in what the page shows: the error is gone and the table holds
    the one fresh row.  A second success changes nothing, and a failure
    after a success keeps the row of the success. *)
Theorem fetchLogs_retry_recovers iso e s :
  error (fetchLogs (Completed iso) (fetchLogs (Threw e) s)) = None
  /\ logs (fetchLogs (Completed iso) (fetchLogs (Threw e) s))
     = mockLogs iso (selectedService s)
  /\ render (fetchLogs (Completed iso) (fetchLogs (Threw e) s))
     = Table (mockLogs iso (selectedService s))
  /\ fetchLogs (Completed iso) (fetchLogs (Completed iso) s)
     = fetchLogs (Completed iso) s
  /\ logs (fetchLogs (Threw e) (fetchLogs (Completed iso) s))
     = mockLogs iso (selectedService s).
Proof. repeat split. Qed.

(** *** The explanation *)

Lemma viewWithLLM_sends_one_request_witness :
  requests (viewWithLLM shownRow (JsonRejected Js.OtherValue) pageWithKey)
  = [completionRequest "sk-test" shownRow].
Proof.
  apply (LogViewerFacts.viewWithLLM_sends_one_request shownRow
           (JsonRejected Js.OtherValue) pageWithKey).
  reflexivity.
Defined.

Lemma trimStart_first s : notWhiteSpace (firstChar (Js.trimStart s)) = true.
Proof.
  induction s as [| c s IH]; [reflexivity |].
  cbn [Js.trimStart]. destruct (Js.isWhiteSpace c) eqn:E; [exact IH |].
  cbn [firstChar notWhiteSpace]. now rewrite E.
Qed.

Lemma trimEnd_first s :
  notWhiteSpace (firstChar s) = true ->
  notWhiteSpace (firstChar (Js.trimEnd s)) = true.
Proof.
  destruct s as [| c s]; [trivial |].
  cbn [Js.trimEnd firstChar notWhiteSpace]. intros Hc.
  destruct (Js.trimEnd s); [| exact Hc].
  destruct (Js.isWhiteSpace c) eqn:E; [reflexivity |].
  cbn [firstChar notWhiteSpace]. now rewrite E.
Qed.

Lemma trimEnd_last s : notWhiteSpace (lastChar (Js.trimEnd s)) = true.
Proof.
  induction s as [| c s IH]; [reflexivity |].
  cbn [Js.trimEnd]. destruct (Js.trimEnd s) as [| c' t] eqn:Et.
  - destruct (Js.isWhiteSpace c) eqn:E; [reflexivity |].
    cbn [lastChar notWhiteSpace]. now rewrite E.
  - exact IH.
Qed.

Lemma shown_text_shape x :
  Js.or_else (Js.trim x) "No explanation" <> ""
  /\ notWhiteSpace (firstChar (Js.or_else (Js.trim x) "No explanation")) = true
  /\ notWhiteSpace (lastChar (Js.or_else (Js.trim x) "No explanation")) = true.
Proof.
  pose proof (trimEnd_first _ (trimStart_first x)) as Hfirst.
  pose proof (trimEnd_last (Js.trimStart x)) as Hlast.
  fold (Js.trim x) in Hfirst, Hlast. unfold Js.or_else.
  destruct (Js.trim x) as [| c t]; cbn [Js.truthy].
  - repeat split. discriminate.
  - repeat split; [discriminate | exact Hfirst | exact Hlast].
Qed.

(** X5: whatever the service answers, a response that [viewWithLLM] accepts
    is shown as a text that is not empty and has no white space at its
    start or at its end. *)
Theorem explanation_never_blank (data : Js.Json) :
  match explanationOf data with
  | inr text =>
      text <> ""
      /\ notWhiteSpace (firstChar text) = true
      /\ notWhiteSpace (lastChar text) = true
  | inl _ => True
  end.
Proof.
  unfold explanationOf.
  destruct (completionContent data) as [e | content]; [exact I |].
  destruct content as [[| b | n | text | items | props] |]; cbn [optTrim];
    try exact I.
  - apply (shown_text_shape "").
  - apply (shown_text_shape text).
  - apply (shown_text_shape "").
Qed.

End ServicePickerFacts.

(** ** The URL parameters, continued *)

Module UrlFacts.

Import LogViewer.

Lemma filter_same_of_other (n : string) (ps : Js.SearchParams) :
  List.filter (fun p => String.eqb (fst p) n)
    (List.filter (fun p => negb (String.eqb (fst p) n)) ps) = [].
Proof.
  induction ps as [| [k v] rest IH]; [reflexivity |].
  cbn [List.filter fst]. destruct (String.eqb k n) eqn:E; cbn [negb]; [exact IH |].
  cbn [List.filter fst]. now rewrite E.
Qed.

Lemma filter_other_of_other (n m : string) (ps : Js.SearchParams) :
  n <> m ->
  List.filter (fun p => String.eqb (fst p) n)
    (List.filter (fun p => negb (String.eqb (fst p) m)) ps)
  = List.filter (fun p => String.eqb (fst p) n) ps.
Proof.
  intros Hne. induction ps as [| [k v] rest IH]; [reflexivity |].
  cbn [List.filter fst]. destruct (String.eqb k m) eqn:Em; cbn [negb].
  - apply String.eqb_eq in Em. subst k.
    destruct (String.eqb m n) eqn:En; [| exact IH].
    apply String.eqb_eq in En. congruence.
  - cbn [List.filter fst]. now rewrite IH.
Qed.

Lemma filter_none_other (n : string) (ps : Js.SearchParams) :
  List.filter (fun p => String.eqb (fst p) n) ps = [] ->
  List.filter (fun p => negb (String.eqb (fst p) n)) ps = ps.
Proof.
  induction ps as [| [k v] rest IH]; [reflexivity |].
  cbn [List.filter fst]. destruct (String.eqb k n); [discriminate |].
  cbn [negb]. intros H. now rewrite IH.
Qed.

(** After [set], the name occurs once, with the value set. *)
Lemma set_filter_same n v ps :
  List.filter (fun p => String.eqb (fst p) n) (Js.set n v ps) = [(n, v)].
Proof.
  induction ps as [| [k v'] rest IH]; cbn [Js.set].
  - cbn [List.filter fst]. now rewrite String.eqb_refl.
  - destruct (String.eqb k n) eqn:E.
    + cbn [List.filter fst]. rewrite E, filter_same_of_other.
      apply String.eqb_eq in E. now subst k.
    + cbn [List.filter fst]. now rewrite E.
Qed.

Lemma set_filter_other n m v ps :
  n <> m ->
  List.filter (fun p => String.eqb (fst p) n) (Js.set m v ps)
  = List.filter (fun p => String.eqb (fst p) n) ps.
Proof.
  intros Hne. induction ps as [| [k v'] rest IH]; cbn [Js.set].
  - cbn [List.filter fst]. destruct (String.eqb m n) eqn:E; [| reflexivity].
    apply String.eqb_eq in E. congruence.
  - destruct (String.eqb k m) eqn:Em.
    + apply String.eqb_eq in Em. subst k. cbn [List.filter fst].
      destruct (String.eqb m n) eqn:En;
        [apply String.eqb_eq in En; congruence |].
      now apply filter_other_of_other.
    + cbn [List.filter fst]. now rewrite IH.
Qed.

(** Setting a name to the value it has, where it occurs once, changes
    nothing. *)
Lemma set_fixed n v ps :
  List.filter (fun p => String.eqb (fst p) n) ps = [(n, v)] ->
  Js.set n v ps = ps.
Proof.
  induction ps as [| [k v'] rest IH]; [discriminate |].
  cbn [List.filter fst Js.set]. destruct (String.eqb k n) eqn:E.
  - intros [= Hk Hv Hrest]. subst. now rewrite filter_none_other.
  - intros H. now rewrite IH.
Qed.

Lemma filter_other_comm (n m : string) (ps : Js.SearchParams) :
  List.filter (fun p => negb (String.eqb (fst p) n))
    (List.filter (fun p => negb (String.eqb (fst p) m)) ps)
  = List.filter (fun p => negb (String.eqb (fst p) m))
      (List.filter (fun p => negb (String.eqb (fst p) n)) ps).
Proof.
  induction ps as [| [k v] rest IH]; [reflexivity |].
  cbn [List.filter fst].
  destruct (String.eqb k m) eqn:Em, (String.eqb k n) eqn:En;
    cbn [negb List.filter fst]; rewrite ?Em, ?En; cbn [negb];
    now rewrite IH.
Qed.

(** [set] of one name and the removal of another can be made in either
    order. *)
Lemma set_filter_comm n m v ps :
  n <> m ->
  Js.set n v (List.filter (fun p => negb (String.eqb (fst p) m)) ps)
  = List.filter (fun p => negb (String.eqb (fst p) m)) (Js.set n v ps).
Proof.
  intros Hne. assert (Hnm : String.eqb n m = false) by now apply String.eqb_neq.
  induction ps as [| [k v'] rest IH].
  - cbn [List.filter Js.set fst]. now rewrite Hnm.
  - cbn [List.filter fst Js.set].
    destruct (String.eqb k m) eqn:Em; cbn [negb].
    + apply String.eqb_eq in Em. subst k.
      rewrite (String.eqb_sym m n), Hnm. cbn [List.filter fst].
      rewrite String.eqb_refl. cbn [negb]. exact IH.
    + cbn [Js.set]. destruct (String.eqb k n) eqn:En.
      * cbn [List.filter fst]. rewrite Em. cbn [negb].
        f_equal. apply filter_other_comm.
      * cbn [List.filter fst]. rewrite Em. cbn [negb]. now rewrite IH.
Qed.

(** [set] leaves the pairs of the other names as they are. *)
Lemma set_filter_pred (q : string * string -> bool) n v ps :
  (forall p, fst p = n -> q p = false) ->
  List.filter q (Js.set n v ps) = List.filter q ps.
Proof.
  intros Hq.
  assert (Hdrop : forall l,
    List.filter q (List.filter (fun p => negb (String.eqb (fst p) n)) l)
    = List.filter q l).
  { induction l as [| [k w] rest IH]; [reflexivity |].
    cbn [List.filter fst]. destruct (String.eqb k n) eqn:E; cbn [negb].
    - apply String.eqb_eq in E. now rewrite (Hq (k, w) E).
    - cbn [List.filter]. now rewrite IH. }
  induction ps as [| [k w] rest IH]; cbn [Js.set].
  - cbn [List.filter]. now rewrite (Hq (n, v) eq_refl).
  - destruct (String.eqb k n) eqn:E.
    + apply String.eqb_eq in E. cbn [List.filter].
      now rewrite (Hq (k, v) E), (Hq (k, w) E), Hdrop.
    + cbn [List.filter]. now rewrite IH.
Qed.

(** [set] does not touch the pairs in front of the first one of the
    name. *)
Lemma set_app n v before rest :
  (forall p, In p before -> fst p <> n) ->
  Js.set n v (before ++ rest) = before ++ Js.set n v rest.
Proof.
  induction before as [| [k w] before IH]; intros Hbefore; [reflexivity |].
  cbn [app Js.set].
  destruct (String.eqb k n) eqn:E.
  - apply String.eqb_eq in E.
    now destruct (Hbefore (k, w) (or_introl eq_refl)).
  - rewrite IH; [reflexivity |]. intros p Hp. apply Hbefore. now right.
Qed.

(** X6: the effect that writes the URL leaves every parameter of another
    name as it was: its values, as often as it occurs, and the order.
    Afterwards [date] and [service] occur exactly once each, with the values
    of the page; the parameters in front of the first of them stay in
    front, the new value takes the place of the first old one, and a name
    that the URL did not hold goes to the end, [date] before [service].
    Writing the same state again changes nothing. *)
Theorem updateUrl_keeps_other_params tz s ps :
  (forall k,
      Js.get k (updateUrl tz s ps)
      = if String.eqb k "date" then Some (formattedDate tz s)
        else if String.eqb k "service" then Some (selectedService s)
        else Js.get k ps)
  /\ List.filter
       (fun p => negb (String.eqb (fst p) "date")
                 && negb (String.eqb (fst p) "service"))
       (updateUrl tz s ps)
     = List.filter
         (fun p => negb (String.eqb (fst p) "date")
                   && negb (String.eqb (fst p) "service"))
         ps
  /\ List.filter (fun p => String.eqb (fst p) "date") (updateUrl tz s ps)
     = [("date", formattedDate tz s)]
  /\ List.filter (fun p => String.eqb (fst p) "service") (updateUrl tz s ps)
     = [("service", selectedService s)]
  /\ (forall before rest,
        ps = before ++ rest ->
        (forall p, In p before -> fst p <> "date" /\ fst p <> "service") ->
        updateUrl tz s ps = before ++ updateUrl tz s rest)
  /\ (forall old rest,
        ps = ("date", old) :: rest ->
        updateUrl tz s ps
        = ("date", formattedDate tz s)
          :: List.filter (fun p => negb (String.eqb (fst p) "date"))
               (Js.set "service" (selectedService s) rest))
  /\ (forall old rest,
        ps = ("service", old) :: rest ->
        updateUrl tz s ps
        = ("service", selectedService s)
          :: List.filter (fun p => negb (String.eqb (fst p) "service"))
               (Js.set "date" (formattedDate tz s) rest))
  /\ ((forall p, In p ps -> fst p <> "date" /\ fst p <> "service") ->
      updateUrl tz s ps
      = ps ++ [("date", formattedDate tz s); ("service", selectedService s)])
  /\ updateUrl tz s (updateUrl tz s ps) = updateUrl tz s ps.
Proof.
  assert (Hdate :
    List.filter (fun p => String.eqb (fst p) "date") (updateUrl tz s ps)
    = [("date", formattedDate tz s)]).
  { unfold updateUrl. rewrite set_filter_other by discriminate.
    apply set_filter_same. }
  assert (Hservice :
    List.filter (fun p => String.eqb (fst p) "service") (updateUrl tz s ps)
    = [("service", selectedService s)]) by apply set_filter_same.
  split; [| split; [| split; [exact Hdate | split; [exact Hservice |]]]].
  - intros k. destruct (LogViewerFacts.updateUrl_params tz s ps) as [Hd Hs].
    destruct (String.eqb k "date") eqn:Ed;
      [apply String.eqb_eq in Ed; now subst k |].
    destruct (String.eqb k "service") eqn:Es;
      [apply String.eqb_eq in Es; now subst k |].
    apply String.eqb_neq in Ed, Es. unfold updateUrl.
    now rewrite !LogViewerFacts.get_set_other.
  - unfold updateUrl. rewrite !set_filter_pred; [reflexivity | |].
    + intros p ->. reflexivity.
    + intros p ->. reflexivity.
  - split; [| split; [| split; [| split]]].
    + intros before rest -> Hbefore. unfold updateUrl.
      rewrite !set_app; [reflexivity | |].
      * intros p Hp. now apply Hbefore.
      * intros p Hp. now apply Hbefore.
    + intros old rest ->. unfold updateUrl. cbn [Js.set String.eqb Ascii.eqb Bool.eqb fst].
      f_equal. now apply set_filter_comm.
    + intros old rest ->. unfold updateUrl. reflexivity.
    + intros Hps. unfold updateUrl.
      rewrite <- (app_nil_r ps) at 1.
      rewrite !set_app; [reflexivity | |].
      * intros p Hp. now apply Hps.
      * intros p Hp. now apply Hps.
    + unfold updateUrl at 1. fold (formattedDate tz s).
      rewrite (set_fixed "date" _ _ Hdate). now apply set_fixed.
Qed.

Lemma civilFromDays_inj a b :
  JsDate.civilFromDays a = JsDate.civilFromDays b -> a = b.
Proof.
  intros H.
  rewrite <- (proj1 (JsDateFacts.civilFromDays_spec a)).
  rewrite <- (proj1 (JsDateFacts.civilFromDays_spec b)).
  now rewrite H.
Qed.

(** What a reload reads from the URL that the page wrote: midnight UTC of
    the local day shown. *)
Lemma initialDate_updateUrl tz now s ps :
  1 <= JsDate.year (JsDate.localCivil tz (date s)) <= 9999 ->
  initialDate now (updateUrl tz s ps)
  = Some ((date s + tz (date s)) / JsDate.msPerDay * JsDate.msPerDay).
Proof.
  intros Hyear.
  destruct (LogViewerFacts.updateUrl_params tz s ps) as [Hdate _].
  destruct (JsDateFacts.civilFromDays_spec
              ((date s + tz (date s)) / JsDate.msPerDay)) as [Hdays Hvalid].
  fold (JsDate.localCivil tz (date s)) in Hdays, Hvalid.
  pose proof (JsDateFacts.parse_format _ Hyear Hvalid) as Hparse.
  rewrite Hdays in Hparse.
  unfold initialDate, dateParam. rewrite Hdate.
  change (formattedDate tz s)
    with (JsDate.format_yyyy_MM_dd (JsDate.localCivil tz (date s))).
  destruct (JsDate.format_yyyy_MM_dd (JsDate.localCivil tz (date s)))
    as [| c rest] eqn:Ef; [discriminate Hparse |].
  cbn [Js.or_else Js.truthy].
  destruct (String.eqb (String c rest) "today") eqn:Et; [| exact Hparse].
  apply String.eqb_eq in Et. rewrite Et in Hparse. discriminate Hparse.
Qed.

(** X8: for a date in the years 1 to 9999 of the local calendar and a
    browser that, at midnight UTC of the local day shown, is behind UTC, by
    a day at most: the date that a reload reads from the URL the page wrote
    is midnight UTC of the local day shown, which is the local day before
    it.  Every reload moves the page one day back. *)
Theorem url_round_trip_behind_utc tz now s ps :
  1 <= JsDate.year (JsDate.localCivil tz (date s)) <= 9999 ->
  - JsDate.msPerDay
    <= tz ((date s + tz (date s)) / JsDate.msPerDay * JsDate.msPerDay) < 0 ->
  initialDate now (updateUrl tz s ps)
  = Some ((date s + tz (date s)) / JsDate.msPerDay * JsDate.msPerDay)
  /\ JsDate.localCivil tz
       ((date s + tz (date s)) / JsDate.msPerDay * JsDate.msPerDay)
     = JsDate.civilFromDays ((date s + tz (date s)) / JsDate.msPerDay - 1)
  /\ JsDate.localCivil tz
       ((date s + tz (date s)) / JsDate.msPerDay * JsDate.msPerDay)
     <> JsDate.localCivil tz (date s).
Proof.
  intros Hyear Htz.
  set (D := (date s + tz (date s)) / JsDate.msPerDay) in *.
  assert (Hback :
    JsDate.localCivil tz (D * JsDate.msPerDay) = JsDate.civilFromDays (D - 1)).
  { unfold JsDate.localCivil. f_equal.
    replace (D * JsDate.msPerDay + tz (D * JsDate.msPerDay))
      with ((JsDate.msPerDay + tz (D * JsDate.msPerDay))
            + (D - 1) * JsDate.msPerDay) by lia.
    rewrite Z.div_add by (unfold JsDate.msPerDay; lia).
    rewrite Z.div_small by lia. lia. }
  split; [now apply initialDate_updateUrl |]. split; [exact Hback |].
  rewrite Hback. unfold JsDate.localCivil. fold D.
  intros H. apply civilFromDays_inj in H. lia.
Qed.

Lemma url_round_trip_behind_utc_witness :
  initialDate 0 (updateUrl utcMinus5 pageWithRows []) = Some 1710460800000
  /\ JsDate.localCivil utcMinus5 1710460800000 = JsDate.civilFromDays 19796
  /\ JsDate.localCivil utcMinus5 1710460800000
     <> JsDate.localCivil utcMinus5 (date pageWithRows).
Proof.
  apply (url_round_trip_behind_utc utcMinus5 0 pageWithRows []).
  - vm_compute. split; discriminate.
  - vm_compute. split; [discriminate | reflexivity].
Defined.

End UrlFacts.

(** ** The column search and the sort headers of the log table *)

Module TableControlsFacts.

Import LogTable TableControls.

Lemma accessorKey_inj a b : accessorKey a = accessorKey b -> a = b.
Proof. destruct a, b; cbn [accessorKey]; intros H; (reflexivity || discriminate H). Qed.

Lemma searchVisible_toggle col col' s :
  searchVisible (toggleColumnSearch col s) col'
  = if bool_decide (col' = col) then negb (searchVisible s col')
    else searchVisible s col'.
Proof.
  unfold searchVisible at 1. cbn [toggleColumnSearch columnSearchVisible].
  case_bool_decide as Hcol.
  - subst col'. now rewrite lookup_insert_eq.
  - rewrite lookup_insert_ne; [reflexivity |].
    intros H. apply accessorKey_inj in H. congruence.
Qed.

Lemma searchVisible_active s col :
  searchVisible s col = true -> hasActiveColumnSearch s = true.
Proof.
  unfold searchVisible, hasActiveColumnSearch. intros H.
  apply bool_decide_eq_true_2. exists (accessorKey col), true.
  destruct (columnSearchVisible s !! accessorKey col) as [b |]; [| discriminate].
  subst b. split; reflexivity.
Qed.

(** X9: the search button of a column shows or hides the search input of
    that column and of no other; a second click undoes the first; and
    opening a search input makes the column search count as active. *)
Theorem toggleColumnSearch_spec col col' s :
  searchVisible (toggleColumnSearch col s) col'
  = (if bool_decide (col' = col) then negb (searchVisible s col')
     else searchVisible s col')
  /\ searchVisible (toggleColumnSearch col (toggleColumnSearch col s)) col'
     = searchVisible s col'
  /\ hasActiveColumnSearch (toggleColumnSearch col s) || searchVisible s col
     = true
  /\ columnFilters (toggleColumnSearch col s) = columnFilters s
  /\ globalFilter (toggleColumnSearch col s) = globalFilter s.
Proof.
  split; [apply searchVisible_toggle |]. split; [| split; [| split]].
  - rewrite !searchVisible_toggle. case_bool_decide; [| reflexivity].
    apply negb_involutive.
  - destruct (searchVisible s col) eqn:E; [apply orb_true_r |].
    rewrite (searchVisible_active (toggleColumnSearch col s) col); [reflexivity |].
    rewrite searchVisible_toggle, bool_decide_eq_true_2 by reflexivity.
    now rewrite E.
  - reflexivity.
  - reflexivity.
Qed.

Lemma hasActiveColumnSearch_empty columnFilters globalFilter :
  hasActiveColumnSearch (mkState columnFilters globalFilter ∅) = false.
Proof.
  unfold hasActiveColumnSearch. cbn [columnSearchVisible].
  apply bool_decide_eq_false_2. intros (k & b & Hk & _).
  now rewrite lookup_empty in Hk.
Qed.

(** X10: "Clear Filters" removes the column filters and closes every
    column search input, after which the button itself is no longer shown;
    it leaves the text of the global filter as it is. *)
Theorem clearAllFilters_keeps_global_filter s col :
  columnFilters (clearAllFilters s) = []
  /\ searchVisible (clearAllFilters s) col = false
  /\ clearButtonShown (clearAllFilters s) = false
  /\ globalFilter (clearAllFilters s) = globalFilter s.
Proof.
  split; [reflexivity |]. split; [reflexivity |]. split; [| reflexivity].
  unfold clearButtonShown, clearAllFilters.
  cbn [hasActiveFilters columnFilters orb]. apply hasActiveColumnSearch_empty.
Qed.

Lemma columns_complete col : In col columns.
Proof. destruct col; cbn; tauto. Qed.

Lemma act_columnKeysOnly s a : columnKeysOnly s -> columnKeysOnly (act s a).
Proof.
  intros Hs. destruct a as [col | v | v |]; cbn [act]; try exact Hs.
  - intros k b. cbn [toggleColumnSearch columnSearchVisible].
    destruct (decide (accessorKey col = k)) as [<- | Hne].
    + intros _. now exists col.
    + rewrite lookup_insert_ne by exact Hne. apply Hs.
  - intros k b. cbn [clearAllFilters columnSearchVisible].
    now rewrite lookup_empty.
Qed.

Lemma actAll_columnKeysOnly actions : forall s,
  columnKeysOnly s -> columnKeysOnly (actAll s actions).
Proof.
  induction actions as [| a actions IH]; intros s Hs; [exact Hs |].
  cbn [actAll fold_left]. apply IH. now apply act_columnKeysOnly.
Qed.

(** X11: however the table has been used since it was rendered, the "Clear
    Filters" button is shown exactly when a column filter is set or the
    search input of some column is open.  The text of the global filter
    has no part in it. *)
Theorem clearButtonShown_spec (actions : list Action) :
  clearButtonShown (actAll initialState actions)
  = hasActiveFilters (actAll initialState actions)
    || existsb (searchVisible (actAll initialState actions)) columns.
Proof.
  assert (Hkeys : columnKeysOnly (actAll initialState actions)).
  { apply actAll_columnKeysOnly. intros k b H.
    cbn [initialState columnSearchVisible] in H. now rewrite lookup_empty in H. }
  unfold clearButtonShown. f_equal.
  destruct (existsb _ columns) eqn:Hex.
  - apply existsb_exists in Hex as (col & _ & Hcol).
    now apply (searchVisible_active _ col).
  - unfold hasActiveColumnSearch. apply bool_decide_eq_false_2.
    intros (k & b & Hk & Hb). subst b.
    destruct (Hkeys k true Hk) as [col ->].
    assert (existsb (searchVisible (actAll initialState actions)) columns = true)
      as Htrue; [| congruence].
    apply existsb_exists. exists col. split; [apply columns_complete |].
    unfold searchVisible. now rewrite Hk.
Qed.

Lemma click_pageIndex_witness :
  pageIndex (handle 45 (mkPagination 2 10) ClickFirst) = 0
  /\ pageIndex (handle 45 (mkPagination 2 10) ClickPrevious) = 1
  /\ pageIndex (handle 45 (mkPagination 2 10) ClickNext) = 3
  /\ pageIndex (handle 45 (mkPagination 2 10) ClickLast) = 4.
Proof.
  apply (LogTableFacts.click_pageIndex 45 (mkPagination 2 10)).
  unfold inRange. vm_compute. split; discriminate.
Defined.

End TableControlsFacts.

(** ** The time zone picker *)

Module TimeZonePickerFacts.

Import Settings TimeZonePicker.

(** *** The groups of [TIMEZONE_DATA] *)

Lemma fold_addZone_None names : fold_left addZone names None = None.
Proof. induction names as [| n names IH]; [reflexivity | exact IH]. Qed.

(** The [reduce] throws exactly when some region is an inherited key. *)
Lemma fold_addZone names : forall acc,
  fold_left addZone names (Some acc)
  = if existsb (fun n => isInherited (regionOf n)) names then None
    else Some (fold_left (fun a n => pushName (regionOf n) n a) names acc).
Proof.
  induction names as [| n names IH]; intros acc; [reflexivity |].
  cbn [fold_left addZone existsb].
  destruct (isInherited (regionOf n)); cbn [orb].
  - apply fold_addZone_None.
  - apply IH.
Qed.

Lemma pushName_keys r n acc :
  map fst (pushName r n acc)
  = if existsb (String.eqb r) (map fst acc) then map fst acc
    else map fst acc ++ [r].
Proof.
  induction acc as [| [k l] rest IH]; [reflexivity |].
  cbn [pushName map fst existsb]. rewrite (String.eqb_sym r k).
  destruct (String.eqb k r); cbn [orb map fst]; [reflexivity |].
  rewrite IH. now destruct (existsb (String.eqb r) (map fst rest)).
Qed.

Lemma existsb_eqb_In r (keys : list string) :
  existsb (String.eqb r) keys = true <-> In r keys.
Proof.
  rewrite existsb_exists. split.
  - intros (k & Hk & E). apply String.eqb_eq in E. now subst k.
  - intros H. exists r. split; [exact H | apply String.eqb_refl].
Qed.

Lemma pushName_In r n acc : forall r' l',
  NoDup (map fst acc) ->
  In (r', l') (pushName r n acc) ->
  (r' <> r /\ In (r', l') acc)
  \/ (r' = r
      /\ ((exists l, In (r, l) acc /\ l' = l ++ [n])
          \/ (~ In r (map fst acc) /\ l' = [n]))).
Proof.
  induction acc as [| [k l] rest IH]; intros r' l' Hnd Hin.
  - cbn [pushName] in Hin. destruct Hin as [[= <- <-] | []].
    right. split; [reflexivity |]. right. split; [intros [] | reflexivity].
  - cbn [map fst] in Hnd. apply NoDup_cons in Hnd as [Hk Hnd].
    cbn [pushName] in Hin. destruct (String.eqb k r) eqn:E.
    + apply String.eqb_eq in E. subst k. destruct Hin as [[= <- <-] | Hin].
      * right. split; [reflexivity |]. left. exists l. split; [now left | reflexivity].
      * left. split; [| now right]. intros ->. apply Hk.
        apply list_elem_of_In. change r with (fst (r, l')). now apply in_map.
    + apply String.eqb_neq in E. destruct Hin as [[= <- <-] | Hin].
      * left. split; [exact E | now left].
      * destruct (IH r' l' Hnd Hin) as [[Hne Hin'] | [-> [(l0 & Hl0 & ->) | [Hno ->]]]].
        -- left. split; [exact Hne | now right].
        -- right. split; [reflexivity |]. left. exists l0. split; [now right | reflexivity].
        -- right. split; [reflexivity |]. right. split; [| reflexivity].
           cbn [map fst]. intros [Hk' | Hin']; [congruence | contradiction].
Qed.

Lemma filter_snoc {A : Type} (p : A -> bool) l x :
  List.filter p (l ++ [x]) = List.filter p l ++ (if p x then [x] else []).
Proof. rewrite List.filter_app. cbn [List.filter]. now destruct (p x). Qed.

Lemma filter_nil_of_none {A : Type} (p : A -> bool) l :
  (forall x, In x l -> p x = false) -> List.filter p l = [].
Proof.
  induction l as [| x l IH]; intros H; [reflexivity |].
  cbn [List.filter]. rewrite (H x (or_introl eq_refl)).
  apply IH. intros y Hy. apply H. now right.
Qed.

Lemma pushName_grouped acc names n :
  grouped acc names -> grouped (pushName (regionOf n) n acc) (names ++ [n]).
Proof.
  intros (Hnd & Hgroups & Hall). split; [| split].
  - rewrite pushName_keys.
    destruct (existsb (String.eqb (regionOf n)) (map fst acc)) eqn:Hex;
      [exact Hnd |].
    apply NoDup_app. split; [exact Hnd |]. split; [| apply NoDup_singleton].
    intros r Hr Hr'. apply list_elem_of_singleton in Hr'. subst r.
    apply list_elem_of_In, existsb_eqb_In in Hr. congruence.
  - intros r l Hin. rewrite filter_snoc.
    destruct (pushName_In _ _ _ _ _ Hnd Hin)
      as [[Hne Hin'] | [-> [(l0 & Hl0 & ->) | [Hno ->]]]].
    + destruct (Hgroups r l Hin') as [Hl Heq].
      apply String.eqb_neq in Hne. rewrite String.eqb_sym, Hne, app_nil_r.
      now split.
    + destruct (Hgroups _ l0 Hl0) as [Hl Heq].
      rewrite String.eqb_refl, <- Heq. split; [| reflexivity].
      now destruct l0.
    + rewrite String.eqb_refl. split; [discriminate |].
      rewrite filter_nil_of_none; [reflexivity |].
      intros m Hm. apply String.eqb_neq. intros E. apply Hno.
      rewrite <- E. now apply Hall.
  - intros m Hm. rewrite pushName_keys.
    assert (Hor : In (regionOf m) (map fst acc) \/ regionOf m = regionOf n).
    { apply in_app_or in Hm as [Hm | [<- | []]]; [left; now apply Hall | now right]. }
    destruct (existsb (String.eqb (regionOf n)) (map fst acc)) eqn:Hex.
    + destruct Hor as [H | ->]; [exact H | now apply existsb_eqb_In].
    + apply in_or_app. destruct Hor as [H | ->]; [now left | right; now left].
Qed.

Lemma fold_pushName_grouped rest : forall acc names,
  grouped acc names ->
  grouped (fold_left (fun a n => pushName (regionOf n) n a) rest acc)
    (names ++ rest).
Proof.
  induction rest as [| n rest IH]; intros acc names H.
  - now rewrite app_nil_r.
  - cbn [fold_left]. replace (names ++ n :: rest) with ((names ++ [n]) ++ rest)
      by now rewrite <- app_assoc.
    apply IH. now apply pushName_grouped.
Qed.

Lemma filter_split_Permutation {A : Type} (p : A -> bool) l :
  Permutation (List.filter p l ++ List.filter (fun x => negb (p x)) l) l.
Proof.
  induction l as [| x l IH]; [reflexivity |].
  cbn [List.filter]. destruct (p x); cbn [negb app].
  - now constructor.
  - rewrite <- Permutation_middle. now constructor.
Qed.

(** [Object.entries] lists every own property once. *)
Lemma entries_Permutation acc : Permutation (entries acc) acc.
Proof.
  unfold entries. rewrite LogTableFacts.stableSort_Permutation.
  apply filter_split_Permutation.
Qed.

(** [TIMEZONE_DATA] has no value exactly when some zone of the table has an
    inherited key for its region. *)
Lemma TIMEZONE_DATA_throws rawTimeZones :
  TIMEZONE_DATA rawTimeZones = None
  <-> exists z, In z rawTimeZones /\ isInherited (regionOf (Tzdb.name z)) = true.
Proof.
  unfold TIMEZONE_DATA. rewrite fold_addZone.
  destruct (existsb _ _) eqn:Hex.
  - split; [| reflexivity]. intros _.
    apply existsb_exists in Hex as (n & Hn & Hinh).
    apply in_map_iff in Hn as (z & <- & Hz). now exists z.
  - split; [discriminate |]. intros (z & Hz & Hinh).
    assert (existsb (fun n => isInherited (regionOf n))
              (map Tzdb.name rawTimeZones) = true) as Htrue; [| congruence].
    apply existsb_exists. exists (Tzdb.name z). split; [now apply in_map | exact Hinh].
Qed.

(** X14: the [reduce] that builds [TIMEZONE_DATA] throws exactly when the
    region of some zone of the table is the name of a property that every
    object inherits.  In every other case [TIMEZONE_DATA] has one group for
    each region, no region twice and no group empty, and the group of a
    region lists exactly the zones of the table with that region, in the
    order of the table; every zone of the table has its group. *)
Theorem TIMEZONE_DATA_groups (rawTimeZones : list Tzdb.RawTimeZone) :
  (TIMEZONE_DATA rawTimeZones = None
   <-> exists z,
         In z rawTimeZones /\ isInherited (regionOf (Tzdb.name z)) = true)
  /\
  match TIMEZONE_DATA rawTimeZones with
  | Some groups =>
      NoDup (map region groups)
      /\ (forall g, In g groups ->
            timezones g <> []
            /\ timezones g
               = List.filter (fun n => String.eqb (regionOf n) (region g))
                   (map Tzdb.name rawTimeZones))
      /\ (forall z, In z rawTimeZones ->
            exists g, In g groups /\ region g = regionOf (Tzdb.name z))
  | None =>
      exists z, In z rawTimeZones /\ isInherited (regionOf (Tzdb.name z)) = true
  end.
Proof.
  split; [apply TIMEZONE_DATA_throws |].
  unfold TIMEZONE_DATA. rewrite fold_addZone.
  destruct (existsb _ (map Tzdb.name rawTimeZones)) eqn:Hex.
  - apply existsb_exists in Hex as (n & Hn & Hinh).
    apply in_map_iff in Hn as (z & <- & Hz). now exists z.
  - set (acc := fold_left _ _ []).
    assert (Hacc : grouped acc (map Tzdb.name rawTimeZones)).
    { apply (fold_pushName_grouped _ [] []). split; [constructor |].
      split; intros; contradiction. }
    destruct Hacc as (Hnd & Hgroups & Hall).
    pose proof (entries_Permutation acc) as Hperm.
    rewrite map_map. cbn [region].
    split; [| split].
    + change (map (fun x => fst x) (entries acc)) with (map fst (entries acc)).
      now rewrite Hperm.
    + intros g Hg. apply in_map_iff in Hg as ([r l] & <- & Hin).
      cbn [timezones region fst snd]. apply Hgroups.
      now rewrite <- Hperm.
    + intros z Hz.
      assert (Hr : In (regionOf (Tzdb.name z)) (map fst acc))
        by (apply Hall; now apply in_map).
      apply in_map_iff in Hr as ([r l] & Hfst & Hin). cbn [fst] in Hfst.
      exists (mkGroup r l). split; [| exact Hfst].
      apply in_map_iff. exists (r, l). split; [reflexivity |].
      now rewrite Hperm.
Qed.

Example TIMEZONE_DATA_example :
  TIMEZONE_DATA
    [ Tzdb.mkRawTimeZone "Asia/Karachi" "Pakistan Time";
      Tzdb.mkRawTimeZone "Europe/Paris" "Central European Time";
      Tzdb.mkRawTimeZone "Asia/Tokyo" "Japan Time";
      Tzdb.mkRawTimeZone "UTC" "Coordinated Universal Time" ]
  = Some [ mkGroup "Asia" ["Asia/Karachi"; "Asia/Tokyo"];
           mkGroup "Europe" ["Europe/Paris"];
           mkGroup "UTC" ["UTC"] ].
Proof. reflexivity. Qed.

(** *** The search of the picker *)

Lemma filteredZones_In rawTimeZones getTimezoneOffset search data g :
  In g (filteredZones rawTimeZones getTimezoneOffset search data) <->
  timezones g <> []
  /\ exists g0,
       In g0 data
       /\ g = mkGroup (region g0)
               (if Js.truthy (Js.toLowerCase (Js.trim search))
                then List.filter
                       (zoneMatches rawTimeZones getTimezoneOffset
                          (Js.toLowerCase (Js.trim search)))
                       (timezones g0)
                else timezones g0).
Proof.
  unfold filteredZones. rewrite List.filter_In, in_map_iff. split.
  - intros [(g0 & Hg & Hin) Hne]. split; [now destruct (timezones g) |].
    exists g0. now split.
  - intros [Hne (g0 & Hin & Hg)]. split; [now exists g0 |].
    now destruct (timezones g).
Qed.

(** X15: the groups that the picker lists for a search text are groups of
    the data, none of them empty, each holding zones of its own group only;
    a zone whose name contains the text, whatever the case of the letters
    and the white space around the text, is listed; and after a zone has
    been picked, the search being cleared, every group that has a zone is
    listed whole. *)
Theorem filteredZones_spec (rawTimeZones : list Tzdb.RawTimeZone)
    (getTimezoneOffset : string -> string) (search : string)
    (data : list Group) :
  (forall g,
      In g (filteredZones rawTimeZones getTimezoneOffset search data) ->
      timezones g <> []
      /\ exists g0,
           In g0 data /\ region g0 = region g
           /\ forall tz, In tz (timezones g) -> In tz (timezones g0))
  /\ (forall g0 tz,
        In g0 data -> In tz (timezones g0) ->
        Js.includes (Js.toLowerCase (Js.trim search)) (Js.toLowerCase tz) = true ->
        exists g,
          In g (filteredZones rawTimeZones getTimezoneOffset search data)
          /\ region g = region g0 /\ In tz (timezones g))
  /\ (forall tz s,
        filteredZones rawTimeZones getTimezoneOffset
          (timezoneSearch (handleSelectTz tz s)) data
        = List.filter
            (fun g => match timezones g with [] => false | _ :: _ => true end)
            data).
Proof.
  split; [| split].
  - intros g Hg. apply filteredZones_In in Hg as [Hne (g0 & Hin & ->)].
    split; [exact Hne |]. exists g0. split; [exact Hin |].
    split; [reflexivity |]. cbn [timezones]. intros tz Htz.
    destruct (Js.truthy _); [| exact Htz].
    now apply List.filter_In in Htz.
  - intros g0 tz Hin Htz Hmatch.
    set (q := Js.toLowerCase (Js.trim search)) in *.
    assert (Hkept :
      In tz (if Js.truthy q
             then List.filter (zoneMatches rawTimeZones getTimezoneOffset q)
                    (timezones g0)
             else timezones g0)).
    { destruct (Js.truthy q); [| exact Htz].
      apply List.filter_In. split; [exact Htz |].
      unfold zoneMatches. now rewrite Hmatch. }
    exists (mkGroup (region g0)
              (if Js.truthy q
               then List.filter (zoneMatches rawTimeZones getTimezoneOffset q)
                      (timezones g0)
               else timezones g0)).
    split; [| split; [reflexivity | exact Hkept]].
    apply filteredZones_In. cbn [timezones]. split.
    + intros Hnil. rewrite Hnil in Hkept. contradiction.
    + exists g0. now split.
  - intros tz s. unfold filteredZones.
    cbn [handleSelectTz timezoneSearch Js.trim Js.trimStart Js.trimEnd
         Js.toLowerCase Js.truthy].
    f_equal. rewrite <- (map_id data) at 2. apply map_ext.
    now intros [r l].
Qed.

End TimeZonePickerFacts.

(** ** The rows of the service list *)

Module ServiceRowsFacts.

Import Settings ServiceRows.

(** *** The badge of a row *)

Lemma toLowerChar_not_upper c : isUpperCase (Js.toLowerChar c) = false.
Proof. destruct c as [[] [] [] [] [] [] [] []]; reflexivity. Qed.

Lemma toLowerChar_fixed c : isUpperCase c = false -> Js.toLowerChar c = c.
Proof. destruct c as [[] [] [] [] [] [] [] []]; (reflexivity || discriminate). Qed.

Lemma toLowerChar_ascii c : isAscii (Js.toLowerChar c) = isAscii c.
Proof. destruct c as [[] [] [] [] [] [] [] []]; reflexivity. Qed.

Lemma toLowerCase_not_upper s :
  forallChars (fun c => negb (isUpperCase c)) (Js.toLowerCase s) = true.
Proof.
  induction s as [| c s IH]; [reflexivity |].
  cbn [Js.toLowerCase forallChars]. now rewrite toLowerChar_not_upper, IH.
Qed.

Lemma toLowerCase_fixed s :
  forallChars (fun c => negb (isUpperCase c)) s = true -> Js.toLowerCase s = s.
Proof.
  induction s as [| c s IH]; [reflexivity |].
  cbn [Js.toLowerCase forallChars]. intros H. apply andb_prop in H as [Hc Hs].
  apply negb_true_iff in Hc. now rewrite toLowerChar_fixed, IH.
Qed.

Lemma toLowerCase_ascii s :
  forallChars isAscii (Js.toLowerCase s) = forallChars isAscii s.
Proof.
  induction s as [| c s IH]; [reflexivity |].
  cbn [Js.toLowerCase forallChars]. now rewrite toLowerChar_ascii, IH.
Qed.

Lemma replaceWhiteSpaceRuns_no_whiteSpace s : forall inRun,
  forallChars (fun c => negb (Js.isWhiteSpace c)) (replaceWhiteSpaceRuns inRun s)
  = true.
Proof.
  induction s as [| c s IH]; intros inRun; [reflexivity |].
  cbn [replaceWhiteSpaceRuns]. destruct (Js.isWhiteSpace c) eqn:E.
  - destruct inRun; [apply IH |]. cbn [forallChars]. now rewrite IH.
  - cbn [forallChars]. now rewrite E, IH.
Qed.

(** A test that the hyphen passes is passed by the result when the text
    passes it. *)
Lemma replaceWhiteSpaceRuns_forallChars (p : ascii -> bool) s : forall inRun,
  p "-"%char = true ->
  forallChars p s = true ->
  forallChars p (replaceWhiteSpaceRuns inRun s) = true.
Proof.
  induction s as [| c s IH]; intros inRun Hp H; [reflexivity |].
  cbn [forallChars] in H. apply andb_prop in H as [Hc Hs].
  cbn [replaceWhiteSpaceRuns]. destruct (Js.isWhiteSpace c).
  - destruct inRun; [now apply IH |]. cbn [forallChars]. now rewrite Hp, IH.
  - cbn [forallChars]. now rewrite Hc, IH.
Qed.

Lemma replaceWhiteSpaceRuns_fixed s : forall inRun,
  forallChars (fun c => negb (Js.isWhiteSpace c)) s = true ->
  replaceWhiteSpaceRuns inRun s = s.
Proof.
  induction s as [| c s IH]; intros inRun H; [reflexivity |].
  cbn [forallChars] in H. apply andb_prop in H as [Hc Hs].
  apply negb_true_iff in Hc. cbn [replaceWhiteSpaceRuns]. now rewrite Hc, IH.
Qed.

Lemma replaceWhiteSpaceRuns_length s : forall inRun,
  (String.length (replaceWhiteSpaceRuns inRun s) <= String.length s)%nat.
Proof.
  induction s as [| c s IH]; intros inRun; [reflexivity |].
  cbn [replaceWhiteSpaceRuns]. destruct (Js.isWhiteSpace c).
  - destruct inRun; cbn [String.length].
    + specialize (IH true). lia.
    + specialize (IH true). lia.
  - cbn [String.length]. specialize (IH false). lia.
Qed.

Lemma toLowerCase_length s : String.length (Js.toLowerCase s) = String.length s.
Proof. induction s as [| c s IH]; [reflexivity |]. cbn. now rewrite IH. Qed.

(** X16: for a name in the ASCII range, the id shown in the badge of the
    service is in the ASCII range, has no white space and no capital
    letter, is not longer than the name, and is its own id: a name that is
    already an id is shown as it is. *)
Theorem serviceId_spec (unicodeServiceId : string -> string) (n : string) :
  forallChars isAscii n = true ->
  forallChars isAscii (serviceId unicodeServiceId n) = true
  /\ forallChars (fun c => negb (Js.isWhiteSpace c))
       (serviceId unicodeServiceId n) = true
  /\ forallChars (fun c => negb (isUpperCase c))
       (serviceId unicodeServiceId n) = true
  /\ (String.length (serviceId unicodeServiceId n) <= String.length n)%nat
  /\ serviceId unicodeServiceId (serviceId unicodeServiceId n)
     = serviceId unicodeServiceId n.
Proof.
  intros Hascii. unfold serviceId at 1 2 3 4 6. unfold serviceId at 2.
  rewrite Hascii.
  set (r := replaceWhiteSpaceRuns false (Js.toLowerCase n)).
  assert (Hr : forallChars isAscii r = true).
  { apply replaceWhiteSpaceRuns_forallChars; [reflexivity |].
    now rewrite toLowerCase_ascii. }
  assert (Hws : forallChars (fun c => negb (Js.isWhiteSpace c)) r = true)
    by apply replaceWhiteSpaceRuns_no_whiteSpace.
  assert (Hup : forallChars (fun c => negb (isUpperCase c)) r = true).
  { apply replaceWhiteSpaceRuns_forallChars; [reflexivity |].
    apply toLowerCase_not_upper. }
  split; [exact Hr |]. split; [exact Hws |]. split; [exact Hup |]. split.
  - unfold r. rewrite <- (toLowerCase_length n).
    apply replaceWhiteSpaceRuns_length.
  - unfold serviceId. rewrite Hr, (toLowerCase_fixed _ Hup).
    now apply replaceWhiteSpaceRuns_fixed.
Qed.

Lemma serviceId_spec_witness :
  forallChars isAscii (serviceId (fun n => n) "API  Server") = true
  /\ forallChars (fun c => negb (Js.isWhiteSpace c))
       (serviceId (fun n => n) "API  Server") = true
  /\ forallChars (fun c => negb (isUpperCase c))
       (serviceId (fun n => n) "API  Server") = true
  /\ (String.length (serviceId (fun n => n) "API  Server")
      <= String.length "API  Server")%nat
  /\ serviceId (fun n => n) (serviceId (fun n => n) "API  Server")
     = serviceId (fun n => n) "API  Server".
Proof.
  apply (serviceId_spec (fun n => n) "API  Server"). reflexivity.
Defined.

Example serviceId_example unicodeServiceId :
  serviceId unicodeServiceId "API  Server" = "api-server".
Proof. reflexivity. Qed.

(** *** Removing a service *)

Lemma filter_all {A : Type} (p : A -> bool) l :
  (forall x, In x l -> p x = true) -> List.filter p l = l.
Proof.
  induction l as [| x l IH]; intros H; [reflexivity |].
  cbn [List.filter]. rewrite (H x (or_introl eq_refl)).
  f_equal. apply IH. intros y Hy. apply H. now right.
Qed.

Lemma filter_sublist {A : Type} (p : A -> bool) l :
  sublist (List.filter p l) l.
Proof.
  induction l as [| x l IH]; [constructor |].
  cbn [List.filter]. destruct (p x); now constructor.
Qed.

Lemma filter_length_lt {A : Type} (p : A -> bool) l x :
  In x l -> p x = false -> (length (List.filter p l) < length l)%nat.
Proof.
  induction l as [| y l IH]; [contradiction |].
  intros [-> | Hin] Hx; cbn [List.filter length].
  - rewrite Hx. pose proof (List.filter_length_le p l). lia.
  - specialize (IH Hin Hx). destruct (p y); cbn [length]; lia.
Qed.

(** X17: [removeService] removes every service of the name given and no
    other, the services that stay keeping their order; the list is left as
    it was exactly when no service has the name, and the toast reports a
    success in that case too. *)
Theorem removeService_spec (n : string) (s : State) :
  ~ In n (serviceNames (removeService n s))
  /\ (forall x, In x (services (removeService n s))
               <-> In x (services s) /\ name x <> n)
  /\ sublist (services (removeService n s)) (services s)
  /\ (services (removeService n s) = services s <-> ~ In n (serviceNames s))
  /\ toasts (removeService n s) = toasts s ++ [serviceRemovedToast].
Proof.
  unfold serviceNames, removeService. cbn [services toasts toast setServices].
  assert (Hmem : forall x,
    In x (List.filter (fun x => negb (String.eqb (name x) n)) (services s))
    <-> In x (services s) /\ name x <> n).
  { intros x. rewrite List.filter_In, negb_true_iff, String.eqb_neq. tauto. }
  split; [| split; [exact Hmem | split; [| split; [| reflexivity]]]].
  - intros Hin. apply in_map_iff in Hin as (x & Hname & Hx).
    apply Hmem in Hx as [_ Hne]. contradiction.
  - apply filter_sublist.
  - split.
    + intros Heq Hin. apply in_map_iff in Hin as (x & Hname & Hx).
      assert (Hlt := filter_length_lt
                       (fun x => negb (String.eqb (name x) n)) (services s) x Hx).
      rewrite Heq in Hlt. cbn beta in Hlt.
      rewrite Hname, String.eqb_refl in Hlt. specialize (Hlt eq_refl). lia.
    + intros Hno. apply filter_all. intros x Hx.
      apply negb_true_iff, String.eqb_neq. intros Hname. apply Hno.
      rewrite <- Hname. now apply in_map.
Qed.

(** *** Editing an endpoint *)

(** X18: typing in the endpoint input of a row changes the endpoint of the
    services of that name and nothing else: every row keeps its name and
    its place.  Of two edits of one row the later one stands, and edits of
    rows with different names can be made in either order. *)
Theorem editEndpoint_spec (n m v w : string) (s : State) :
  map name (services (editEndpoint n v s)) = map name (services s)
  /\ map endpoint (services (editEndpoint n v s))
     = map (fun x => if String.eqb (name x) n then v else endpoint x)
         (services s)
  /\ editEndpoint n w (editEndpoint n v s) = editEndpoint n w s
  /\ (if String.eqb n m then True
      else editEndpoint n v (editEndpoint m w s)
           = editEndpoint m w (editEndpoint n v s)).
Proof.
  unfold editEndpoint, setServices.
  cbn [services newServiceName newServiceEndpoint primaryTimezone pageSize
       showLineNumbers dateFormat timeFormat openAIApiKey toasts].
  split; [| split; [| split]].
  - rewrite map_map. apply map_ext. intros x.
    now destruct (String.eqb (name x) n).
  - rewrite map_map. apply map_ext. intros x.
    now destruct (String.eqb (name x) n).
  - f_equal. rewrite map_map. apply map_ext. intros x.
    destruct (String.eqb (name x) n) eqn:E; cbn [name]; now rewrite E.
  - destruct (String.eqb n m) eqn:Enm; [exact I |].
    apply String.eqb_neq in Enm.
    f_equal. rewrite !map_map. apply map_ext. intros x.
    destruct (String.eqb (name x) m) eqn:Em, (String.eqb (name x) n) eqn:En;
      cbn [name]; rewrite ?Em, ?En; try reflexivity.
    apply String.eqb_eq in Em, En. congruence.
Qed.

(** *** Adding a service *)

Lemma app_one_neq {A : Type} (l : list A) x : l <> l ++ [x].
Proof.
  intros H. apply (f_equal (@length A)) in H.
  rewrite length_app in H. cbn [length] in H. lia.
Qed.

(** X19: a click on "Add Service" either leaves the list as it is or puts
    one service at its end, the one of the two fields, which it does exactly
    when both fields are filled and no service has the name.  A second click
    right after it adds nothing and shows an error: the first either was
    refused or has emptied the form. *)
Theorem addService_twice (s : State) :
  (services (addService s) = services s
   \/ services (addService s)
      = services s ++ [mkService (newServiceName s) (newServiceEndpoint s)])
  /\ (services (addService s)
      = services s ++ [mkService (newServiceName s) (newServiceEndpoint s)]
      <-> Js.truthy (newServiceName s) = true
          /\ Js.truthy (newServiceEndpoint s) = true
          /\ nameExists s = false)
  /\ services (addService (addService s)) = services (addService s)
  /\ exists t,
       toasts (addService (addService s)) = toasts (addService s) ++ [t]
       /\ variant t = Destructive.
Proof.
  unfold addService.
  destruct (Js.truthy (newServiceName s)) eqn:Hname; cbn [negb orb].
  - destruct (Js.truthy (newServiceEndpoint s)) eqn:Hendpoint; cbn [negb orb].
    + destruct (nameExists s) eqn:Hex.
      * unfold nameExists in *.
        cbn [services newServiceName newServiceEndpoint toast toasts].
        rewrite Hname, Hendpoint, Hex. cbn [negb orb toasts toast].
        split; [now left |]. split; [| split; [reflexivity |]].
        -- split; [intros H; now apply app_one_neq in H | intros (_ & _ & H); discriminate].
        -- now exists nameExistsToast.
      * cbn [services newServiceName newServiceEndpoint toast toasts setServices
             setNewServiceName setNewServiceEndpoint Js.truthy negb orb].
        split; [now right |]. split; [now split |]. split; [reflexivity |].
        now exists missingFieldToast.
    + cbn [services newServiceName newServiceEndpoint toast toasts].
      rewrite Hname, Hendpoint. cbn [negb orb toasts toast].
      split; [now left |]. split; [| split; [reflexivity |]].
      * split; [intros H; now apply app_one_neq in H | intros (_ & H & _); discriminate].
      * now exists missingFieldToast.
  - cbn [services newServiceName newServiceEndpoint toast toasts].
    rewrite Hname. cbn [negb orb toasts toast].
    split; [now left |]. split; [| split; [reflexivity |]].
    + split; [intros H; now apply app_one_neq in H | intros (H & _); discriminate].
    + now exists missingFieldToast.
Qed.

(** X20: a service that has just been added under a new name is taken
    away again by [removeService] with that name, which gives back the
    list as it was. *)
Theorem add_then_remove (s : State) :
  Js.truthy (newServiceName s) = true ->
  Js.truthy (newServiceEndpoint s) = true ->
  nameExists s = false ->
  services (addService s)
  = services s ++ [mkService (newServiceName s) (newServiceEndpoint s)]
  /\ newServiceName (addService s) = ""
  /\ newServiceEndpoint (addService s) = ""
  /\ services (removeService (newServiceName s) (addService s)) = services s.
Proof.
  intros Hname Hendpoint Hex. unfold addService.
  rewrite Hname, Hendpoint, Hex. cbn [negb orb].
  repeat split.
  cbn [removeService services toast setServices setNewServiceName
       setNewServiceEndpoint].
  rewrite List.filter_app. cbn [List.filter name].
  rewrite String.eqb_refl. cbn [negb]. rewrite app_nil_r.
  apply filter_all. intros x Hx. apply negb_true_iff.
  unfold nameExists in Hex.
  destruct (String.eqb (name x) (newServiceName s)) eqn:E; [| reflexivity].
  assert (existsb (fun x => String.eqb (name x) (newServiceName s)) (services s)
          = true) as Htrue; [| congruence].
  apply existsb_exists. now exists x.
Qed.

Lemma add_then_remove_witness :
  services
    (removeService "Auth"
       (addService
          (setNewServiceEndpoint "https://auth.test"
             (setNewServiceName "Auth" (initialState "Asia/Karachi")))))
  = DEFAULT_SERVICES.
Proof.
  exact (proj2 (proj2 (proj2
    (add_then_remove
       (setNewServiceEndpoint "https://auth.test"
          (setNewServiceName "Auth" (initialState "Asia/Karachi")))
       eq_refl eq_refl eq_refl)))).
Defined.

(** *** The list is never emptied *)

Lemma filter_one_name l n :
  NoDup (map name l) ->
  (length l
   <= S (length (List.filter (fun x => negb (String.eqb (name x) n)) l)))%nat.
Proof.
  induction l as [| x l IH]; [cbn; lia |].
  cbn [map]. intros Hnd. apply NoDup_cons in Hnd as [Hx Hnd].
  cbn [List.filter]. destruct (String.eqb (name x) n) eqn:E; cbn [negb length].
  - apply String.eqb_eq in E. rewrite filter_all; [lia |].
    intros y Hy. apply negb_true_iff, String.eqb_neq. intros Hname.
    apply Hx. rewrite E, <- Hname. apply list_elem_of_In. now apply in_map.
  - specialize (IH Hnd). lia.
Qed.

Lemma click_keeps_services s c :
  NoDup (serviceNames s) -> services s <> [] ->
  NoDup (serviceNames (click s c)) /\ services (click s c) <> [].
Proof.
  intros Hnd Hne. destruct c as [v | v | | n | n v]; cbn [click].
  - now split.
  - now split.
  - split; [now apply SettingsFacts.addService_unique |].
    rewrite SettingsFacts.addService_services.
    destruct (_ || _ || nameExists s); [exact Hne |].
    now destruct (services s).
  - destruct (removeDisabled s) eqn:Hdis; [now split |].
    split; [now apply SettingsFacts.removeService_unique |].
    unfold removeDisabled in Hdis.
    pose proof (filter_one_name (services s) n Hnd) as Hlen.
    cbn [removeService services toast setServices].
    destruct (services s) as [| x [| y l]]; try discriminate.
    intros Hnil. rewrite Hnil in Hlen. cbn [length] in Hlen. lia.
  - split; [now rewrite SettingsFacts.editEndpoint_names |].
    cbn [editEndpoint services setServices]. now destruct (services s).
Qed.

(** X21: starting from services with pairwise distinct names, of which
    there is at least one, whatever the user types and clicks in the service
    list leaves at least one service: the last one cannot be removed.  The
    log viewer then always finds a current service. *)
Theorem services_never_empty (s : State) (cs : list Click) (selected : string) :
  NoDup (serviceNames s) ->
  services s <> [] ->
  services (clicks s cs) <> []
  /\ NoDup (serviceNames (clicks s cs))
  /\ ServicePicker.currentService (services (clicks s cs)) selected <> None.
Proof.
  intros Hnd Hne.
  assert (H : NoDup (serviceNames (clicks s cs)) /\ services (clicks s cs) <> []).
  { revert s Hnd Hne. induction cs as [| c cs IH]; intros s Hnd Hne; [now split |].
    cbn [clicks fold_left].
    destruct (click_keeps_services s c Hnd Hne) as [Hnd' Hne'].
    now apply IH. }
  destruct H as [Hnd' Hne']. split; [exact Hne' |]. split; [exact Hnd' |].
  unfold ServicePicker.currentService.
  destruct (List.find _ _); [discriminate |].
  now destruct (services (clicks s cs)).
Qed.

Lemma services_never_empty_witness :
  services
    (clicks (initialState "Asia/Karachi")
       [ ClickRemove "API Server"; ClickRemove "Web Server";
         ClickRemove "Database" ])
  <> [].
Proof.
  refine (proj1
    (services_never_empty (initialState "Asia/Karachi")
       [ ClickRemove "API Server"; ClickRemove "Web Server";
         ClickRemove "Database" ] "API Server" _ _)).
  - apply (bool_decide_unpack _). vm_compute. exact I.
  - discriminate.
Defined.

End ServiceRowsFacts.

(** ** The labels and the search of the time zone picker *)

Module ZoneSearchFacts.

Import Settings TimeZonePicker.

(** The zones of the groups are names of the table. *)
Lemma TIMEZONE_DATA_names rawTimeZones groups g tz :
  TIMEZONE_DATA rawTimeZones = Some groups ->
  In g groups -> In tz (timezones g) ->
  In tz (map Tzdb.name rawTimeZones).
Proof.
  unfold TIMEZONE_DATA. rewrite TimeZonePickerFacts.fold_addZone.
  destruct (existsb _ _); [discriminate |].
  intros [= <-] Hg Htz.
  apply in_map_iff in Hg as ([r l] & <- & Hin). cbn [timezones snd] in Htz.
  rewrite TimeZonePickerFacts.entries_Permutation in Hin.
  assert (Hacc := TimeZonePickerFacts.fold_pushName_grouped
                    (map Tzdb.name rawTimeZones) [] []).
  destruct Hacc as (_ & Hgroups & _).
  { split; [constructor |]. split; intros; contradiction. }
  destruct (Hgroups r l Hin) as [_ Hl]. cbn [app] in Hl.
  rewrite Hl in Htz. now apply List.filter_In in Htz.
Qed.

(** X22: every zone that the picker lists is a zone of the table, so its
    label is an alternative name from the table: the fallback of
    [getTimezoneLabel], the identifier with spaces for underscores, is never
    what the search of the picker compares with. *)
Theorem listed_zone_label (rawTimeZones : list Tzdb.RawTimeZone)
    (groups : list Group) (g : Group) (tz : string) :
  TIMEZONE_DATA rawTimeZones = Some groups ->
  In g groups ->
  In tz (timezones g) ->
  exists z,
    In z rawTimeZones /\ Tzdb.name z = tz
    /\ getTimezoneLabel rawTimeZones tz = Tzdb.alternativeName z.
Proof.
  intros Hdata Hg Htz.
  pose proof (TIMEZONE_DATA_names _ _ _ _ Hdata Hg Htz) as Hname.
  apply in_map_iff in Hname as (z0 & Hz0 & Hin0).
  unfold getTimezoneLabel. rewrite SettingsFacts.TZ_RECORD_lookup.
  destruct (last _) as [z |] eqn:Hlast.
  - apply SettingsFacts.last_In, List.filter_In in Hlast as [Hin Hz].
    apply String.eqb_eq in Hz. now exists z.
  - apply SettingsFacts.last_None_nil in Hlast.
    assert (Hz : In z0 (List.filter (fun z => String.eqb (Tzdb.name z) tz)
                          rawTimeZones))
      by (apply List.filter_In; split; [exact Hin0 | now apply String.eqb_eq]).
    rewrite Hlast in Hz. contradiction.
Qed.

Lemma listed_zone_label_witness :
  exists z,
    In z 
    [ Tzdb.mkRawTimeZone "Asia/Karachi" "Pakistan Time";
      Tzdb.mkRawTimeZone "Europe/Paris" "Central European Time";
      Tzdb.mkRawTimeZone "Asia/Tokyo" "Japan Time";
      Tzdb.mkRawTimeZone "UTC" "Coordinated Universal Time" ] /\ Tzdb.name z = "Asia/Tokyo"
    /\ getTimezoneLabel 
    [ Tzdb.mkRawTimeZone "Asia/Karachi" "Pakistan Time";
      Tzdb.mkRawTimeZone "Europe/Paris" "Central European Time";
      Tzdb.mkRawTimeZone "Asia/Tokyo" "Japan Time";
      Tzdb.mkRawTimeZone "UTC" "Coordinated Universal Time" ] "Asia/Tokyo" = Tzdb.alternativeName z.
Proof.
  apply (listed_zone_label 
    [ Tzdb.mkRawTimeZone "Asia/Karachi" "Pakistan Time";
      Tzdb.mkRawTimeZone "Europe/Paris" "Central European Time";
      Tzdb.mkRawTimeZone "Asia/Tokyo" "Japan Time";
      Tzdb.mkRawTimeZone "UTC" "Coordinated Universal Time" ]
           [ mkGroup "Asia" ["Asia/Karachi"; "Asia/Tokyo"];
             mkGroup "Europe" ["Europe/Paris"];
             mkGroup "UTC" ["UTC"] ]
           (mkGroup "Asia" ["Asia/Karachi"; "Asia/Tokyo"]) "Asia/Tokyo").
  - reflexivity.
  - simpl. tauto.
  - simpl. tauto.
Defined.

Lemma prefix_trans a : forall b c,
  String.prefix a b = true -> String.prefix b c = true ->
  String.prefix a c = true.
Proof.
  induction a as [| x a IH]; intros b c Hab Hbc; [now destruct c |].
  destruct b as [| y b]; [discriminate |].
  destruct c as [| z c]; [discriminate |].
  cbn [String.prefix] in *.
  destruct (ascii_dec x y) as [-> |]; [| discriminate].
  destruct (ascii_dec y z) as [-> |]; [| discriminate].
  now apply (IH b c).
Qed.

(** A text that contains a search text contains every beginning of it. *)
Lemma includes_prefix q q' s :
  String.prefix q q' = true -> Js.includes q' s = true -> Js.includes q s = true.
Proof.
  intros Hq. induction s as [| c s IH]; cbn [Js.includes].
  - rewrite !orb_false_r. intros H. now apply (prefix_trans q q' "").
  - intros H. apply orb_prop in H as [H | H].
    + now rewrite (prefix_trans q q' _ Hq H).
    + rewrite (IH H). apply orb_true_r.
Qed.

Lemma prefix_truthy q q' :
  String.prefix q q' = true -> Js.truthy q = true -> Js.truthy q' = true.
Proof. destruct q, q'; (reflexivity || discriminate). Qed.

(** X23: typing on narrows the list.  When a search text, trimmed and in
    lower case, begins with another, every group listed for it is part of
    a group listed for the other, zone by zone. *)
Theorem longer_search_narrows (rawTimeZones : list Tzdb.RawTimeZone)
    (getTimezoneOffset : string -> string) (search search' : string)
    (data : list Group) (g' : Group) :
  String.prefix (Js.toLowerCase (Js.trim search))
    (Js.toLowerCase (Js.trim search')) = true ->
  In g' (filteredZones rawTimeZones getTimezoneOffset search' data) ->
  exists g,
    In g (filteredZones rawTimeZones getTimezoneOffset search data)
    /\ region g = region g'
    /\ forall tz, In tz (timezones g') -> In tz (timezones g).
Proof.
  intros Hprefix Hg'.
  apply TimeZonePickerFacts.filteredZones_In in Hg' as [Hne (g0 & Hin & ->)].
  set (q := Js.toLowerCase (Js.trim search)) in *.
  set (q' := Js.toLowerCase (Js.trim search')) in *.
  cbn [timezones region] in *.
  assert (Hsub : forall tz,
    In tz (if Js.truthy q'
           then List.filter (zoneMatches rawTimeZones getTimezoneOffset q')
                  (timezones g0)
           else timezones g0) ->
    In tz (if Js.truthy q
           then List.filter (zoneMatches rawTimeZones getTimezoneOffset q)
                  (timezones g0)
           else timezones g0)).
  { intros tz Htz. destruct (Js.truthy q) eqn:Hq.
    - rewrite (prefix_truthy q q' Hprefix Hq) in Htz.
      apply List.filter_In in Htz as [Htz Hmatch].
      apply List.filter_In. split; [exact Htz |].
      unfold zoneMatches in *.
      apply orb_prop in Hmatch as [Hmatch | Hmatch];
        [apply orb_prop in Hmatch as [Hmatch | Hmatch] |];
        rewrite (includes_prefix q q' _ Hprefix Hmatch);
        rewrite ?orb_true_r; reflexivity.
    - destruct (Js.truthy q'); [| exact Htz].
      now apply List.filter_In in Htz. }
  exists (mkGroup (region g0)
            (if Js.truthy q
             then List.filter (zoneMatches rawTimeZones getTimezoneOffset q)
                    (timezones g0)
             else timezones g0)).
  split; [| split; [reflexivity | exact Hsub]].
  apply TimeZonePickerFacts.filteredZones_In. cbn [timezones]. split.
  - intros Hnil.
    destruct (if Js.truthy q' then _ else _) as [| tz rest] eqn:E;
      [now apply Hne |].
    specialize (Hsub tz (or_introl eq_refl)). rewrite Hnil in Hsub.
    contradiction.
  - exists g0. now split.
Qed.

Lemma longer_search_narrows_witness :
  exists g,
    In g (filteredZones 
    [ Tzdb.mkRawTimeZone "Asia/Karachi" "Pakistan Time";
      Tzdb.mkRawTimeZone "Europe/Paris" "Central European Time";
      Tzdb.mkRawTimeZone "Asia/Tokyo" "Japan Time";
      Tzdb.mkRawTimeZone "UTC" "Coordinated Universal Time" ] (fun _ => "UTC +00:00") "to"
            [ mkGroup "Asia" ["Asia/Karachi"; "Asia/Tokyo"] ])
    /\ region g = "Asia"
    /\ forall tz, In tz ["Asia/Tokyo"] -> In tz (timezones g).
Proof.
  apply (longer_search_narrows 
    [ Tzdb.mkRawTimeZone "Asia/Karachi" "Pakistan Time";
      Tzdb.mkRawTimeZone "Europe/Paris" "Central European Time";
      Tzdb.mkRawTimeZone "Asia/Tokyo" "Japan Time";
      Tzdb.mkRawTimeZone "UTC" "Coordinated Universal Time" ] (fun _ => "UTC +00:00")
           "to" " Tokyo" [ mkGroup "Asia" ["Asia/Karachi"; "Asia/Tokyo"] ]
           (mkGroup "Asia" ["Asia/Tokyo"])).
  - reflexivity.
  - vm_compute. left. reflexivity.
Defined.

End ZoneSearchFacts.
